(** * cmds/core/mount/mount.go: the [mount] command of u-root

    A shallow embedding of [mount.go] and the properties of its option
    translation, its filesystem prober and its dispatch to the mount
    primitives.

    Go strings are byte strings: they are modelled by [string], whose
    characters are the 256 byte values.  [uintptr] is modelled by [Z]; the
    only operation the program applies to it is bitwise or, which cannot
    leave the range of the type ([lor_uintptr]).  A Go function returning
    [(value, error)] returns a pair whose second component is [None] for
    [nil]. *)

From Stdlib Require Import ZArith Ascii String List Bool Lia.
From stdpp Require Import base option list strings gmap.

Open Scope string_scope.
Open Scope list_scope.
Open Scope Z_scope.

(** ** The functions of package [strings] the program calls *)

Module Strings.

(** [strings.Split(s, sep)] for a separator of one byte, the only kind the
    program uses ([","] and ["\n"]): the pieces of [s] between the
    occurrences of [sep], empty pieces included; never the empty slice. *)
Fixpoint Split (s : string) (sep : ascii) : list string :=
  match s with
  | EmptyString => [EmptyString]
  | String c s' =>
      if Ascii.eqb c sep then EmptyString :: Split s' sep
      else match Split s' sep with
           | piece :: pieces => String c piece :: pieces
           | [] => [String c EmptyString]
           end
  end.

(** [strings.Join(elems, sep)]. *)
Fixpoint Join (elems : list string) (sep : string) : string :=
  match elems with
  | [] => EmptyString
  | [e] => e
  | e :: rest => e +:+ sep +:+ Join rest sep
  end.

(** The width in bytes of the white space rune (in the sense of
    [unicode.IsSpace]) whose UTF-8 encoding starts the byte sequence, and
    [0] when none does.  The white space runes are U+0009..U+000D, U+0020,
    U+0085, U+00A0, U+1680, U+2000..U+200A, U+2028, U+2029, U+202F, U+205F
    and U+3000. *)
Definition spaceWidth (bs : list N) : nat :=
  match bs with
  | b0 :: rest =>
      if ((9 <=? b0) && (b0 <=? 13) || (b0 =? 32))%N then 1%nat
      else match rest with
           | b1 :: rest' =>
               if ((b0 =? 194) && ((b1 =? 133) || (b1 =? 160)))%N then 2%nat
               else match rest' with
                    | b2 :: _ =>
                        if ((b0 =? 225) && (b1 =? 154) && (b2 =? 128))%N then 3%nat
                        else if ((b0 =? 226) && (b1 =? 128) &&
                                 ((128 <=? b2) && (b2 <=? 138) || (b2 =? 168)
                                  || (b2 =? 169) || (b2 =? 175)))%N then 3%nat
                        else if ((b0 =? 226) && (b1 =? 129) && (b2 =? 159))%N then 3%nat
                        else if ((b0 =? 227) && (b1 =? 128) && (b2 =? 128))%N then 3%nat
                        else 0%nat
                    | [] => 0%nat
                    end
           | [] => 0%nat
           end
  | [] => 0%nat
  end.

Definition bytes (s : string) : list N :=
  map N_of_ascii (list_ascii_of_string s).

(** The field being built, closed: nothing when it is empty. *)
Definition flush (cur : string) : list string :=
  match cur with
  | EmptyString => []
  | _ => [cur]
  end.

(** The scan of [strings.Fields]: [skip] counts the bytes still to pass of
    a white space rune of several bytes, [cur] is the field being built. *)
Fixpoint fieldsFrom (skip : nat) (cur : string) (s : string) : list string :=
  match s with
  | EmptyString => flush cur
  | String c s' =>
      match skip with
      | S k => fieldsFrom k cur s'
      | O =>
          match spaceWidth (bytes s) with
          | O => fieldsFrom 0 (cur +:+ String c EmptyString) s'
          | S k => flush cur ++ fieldsFrom k EmptyString s'
          end
      end
  end.

(** [strings.Fields(s)]: the maximal runs of [s] free of white space. *)
Definition Fields (s : string) : list string := fieldsFrom 0 EmptyString s.

End Strings.

(** ** The world outside the program *)

(** A Go [error], by its message. *)
Definition error : Type := string.

(** What the process does that can be seen from outside: the files it reads,
    what it writes to standard output and to the logger, and the calls it
    makes to packages [loop] and [mount]. *)
Inductive event : Type :=
| EvReadFile (path : string)
| EvPrint (s : string)
| EvUsage
| EvLog (msg : string)
| EvFindDevice
| EvSetFile (devicename filename : string)
| EvTryMount (dev path data : string) (flags : Z)
| EvMount (dev path fstype data : string) (flags : Z).

(** The package-level variables bound to the command line flags, as
    [flag.Parse] leaves them.  [optionValues] lists the values of the
    successive [-o] flags: [flag.Parse] hands each of them to
    [mountOptions.Set].  [Args] is [flag.Args()]. *)
Record Flags : Type := {
  ro : bool;
  fsType : string;
  bind : bool;
  rbind : bool;
  makeShared : bool;
  makeSlave : bool;
  makePrivate : bool;
  makeUnbindable : bool;
  makeRShared : bool;
  makeRSlave : bool;
  makeRPrivate : bool;
  makeRUnbindable : bool;
  optionValues : list string;
  Args : list string
}.

(** [flag.Parse] on the default flag set either ends the process, having
    written its complaint, or returns. *)
Inductive parsed : Type :=
| ParseExit (out : list event) (code : Z)
| Parsed (f : Flags).

(** What the program is linked with and runs in: the file system as
    [ioutil.ReadFile] sees it (a read leaves the world as it is), the
    primitives of packages [loop] and [mount], the table [opts] of the
    options that are mount flags (declared in another file of the package),
    and the parser of package [flag]. *)
Class Env (World : Type) : Type := {
  ReadFile : string -> World -> string * option error;
  FindDevice : World -> (string * option error) * World;
  SetFile : string -> string -> World -> option error * World;
  TryMount : string -> string -> string -> Z -> World -> option error * World;
  Mount : string -> string -> string -> string -> Z -> World -> option error * World;
  opts : gmap string Z;
  flagParse : list string -> parsed
}.

(** The mount flags of Linux, from [golang.org/x/sys/unix]. *)
Definition MS_RDONLY : Z := 0x1.
Definition MS_BIND : Z := 0x1000.
Definition MS_REC : Z := 0x4000.
Definition MS_UNBINDABLE : Z := 0x20000.
Definition MS_PRIVATE : Z := 0x40000.
Definition MS_SLAVE : Z := 0x80000.
Definition MS_SHARED : Z := 0x100000.

(** ** Computations of the process *)

(** A computation returns, ends the process with a status ([os.Exit]), or
    panics. *)
Inductive outcome (A : Type) : Type :=
| Ret (a : A)
| Exit (code : Z)
| Panic.
Arguments Ret {A} a.
Arguments Exit {A} code.
Arguments Panic {A}.

(** From a world, a computation gives its outcome, the world it leaves and
    the events it produced, oldest first. *)
Definition M (World A : Type) : Type := World -> outcome A * World * list event.

Definition ret {World A : Type} (a : A) : M World A :=
  fun w => (Ret a, w, []).

Definition seq {World A B : Type} (m : M World A) (k : A -> M World B) : M World B :=
  fun w =>
    match m w with
    | (Ret a, w1, t1) => let '(o, w2, t2) := k a w1 in (o, w2, t1 ++ t2)
    | (Exit code, w1, t1) => (Exit code, w1, t1)
    | (Panic, w1, t1) => (Panic, w1, t1)
    end.

Notation "'let*' p ':=' m 'in' k" := (seq m (fun p => k))
  (at level 10, p pattern, m at level 100, k at level 200).
Notation "m '>>' k" := (seq m (fun _ => k))
  (at level 190, right associativity).

Definition emit {World : Type} (e : event) : M World unit :=
  fun w => (Ret tt, w, [e]).

(** [os.Exit(code)]. *)
Definition exit {World A : Type} (code : Z) : M World A :=
  fun w => (Exit code, w, []).

Definition panic {World A : Type} : M World A :=
  fun w => (Panic, w, []).

(** The status the process ends with: [0] when [main] returns, [2] after a
    panic. *)
Definition status {A : Type} (o : outcome A) : Z :=
  match o with
  | Ret _ => 0
  | Exit code => code
  | Panic => 2
  end.

(** [l[i]] on a slice: out of range, it panics. *)
Definition index {World : Type} (l : list string) (i : Z) : M World string :=
  if i <? 0 then panic
  else match l !! Z.to_nat i with
       | Some x => ret x
       | None => panic
       end.

(** [log.Printf], by the message; [log.Fatal] and [log.Fatalf] write theirs
    and call [os.Exit(1)]. *)
Definition logPrintf {World : Type} (msg : string) : M World unit :=
  emit (EvLog msg).

Definition logFatal {World A : Type} (msg : string) : M World A :=
  emit (EvLog msg) >> exit 1.

Section Program.
Context {World : Type} `{Env World}.

Definition ioReadFile (path : string) : M World (string * option error) :=
  fun w => (Ret (ReadFile path w), w, [EvReadFile path]).

Definition loopFindDevice : M World (string * option error) :=
  fun w => let '(r, w') := FindDevice w in (Ret r, w', [EvFindDevice]).

Definition loopSetFile (devicename filename : string) : M World (option error) :=
  fun w => let '(r, w') := SetFile devicename filename w in
           (Ret r, w', [EvSetFile devicename filename]).

Definition mountTryMount (dev path data : string) (flags : Z) : M World (option error) :=
  fun w => let '(r, w') := TryMount dev path data flags w in
           (Ret r, w', [EvTryMount dev path data flags]).

Definition mountMount (dev path fstype data : string) (flags : Z) : M World (option error) :=
  fun w => let '(r, w') := Mount dev path fstype data flags w in
           (Ret r, w', [EvMount dev path fstype data flags]).

(** *** [mountOptions] *)

(** [func (o *mountOptions) String() string] *)
Definition String_ (o : list string) : string := Strings.Join o ",".

(** [func (o *mountOptions) Set(value string) error]: the options after the
    call; the error is always [nil]. *)
Definition Set_ (o : list string) (value : string) : list string * option error :=
  (fold_left (fun o option => o ++ [option]) (Strings.Split value ",") o, None).

(** The variable [options] once [flag.Parse] has called [Set] with the value
    of each [-o] flag, from the empty slice. *)
Definition accumulate (values : list string) : list string :=
  fold_left (fun o value => fst (Set_ o value)) values [].

(** *** [loopSetup] *)

Definition loopSetup (filename : string) : M World (string * option error) :=
  let* (loopDevice, err) := loopFindDevice in
  match err with
  | Some e => ret ("", Some e)
  | None =>
      let* err := loopSetFile loopDevice filename in
      match err with
      | Some e => ret ("", Some e)
      | None => ret (loopDevice, None)
      end
  end.

(** *** [getSupportedFilesystem] *)

(** The loop over the lines of the listing, with the variables [known] and
    [returnValue] it updates. *)
Fixpoint scanLines (originFS : string) (lines : list string) (known : bool)
    (returnValue : list string) : M World (list string * bool) :=
  match lines with
  | [] => ret (returnValue, known)
  | f :: rest =>
      let n := Strings.Fields f in
      let last := Z.of_nat (length n) - 1 in
      if last <? 0 then scanLines originFS rest known returnValue
      else
        let* x := index n last in
        let known := if String.eqb x originFS then true else known in
        let* y := index n last in
        scanLines originFS rest known (returnValue ++ [y])
  end.

Definition getSupportedFilesystem (originFS : string)
    : M World (list string * bool * option error) :=
  let known := false in
  let* (fs, err) := ioReadFile "/proc/filesystems" in
  match err with
  | Some e => ret ([], known, Some e)
  | None =>
      let* (returnValue, known) :=
        scanLines originFS (Strings.Split fs "010") known [] in
      ret (returnValue, known, err)
  end.

(** *** [informIfUnknownFS] *)

(** A slice of strings under the verb [%v]: its elements between brackets,
    a space between two of them. *)
Definition fmtSlice (l : list string) : string :=
  "[" +:+ Strings.Join l " " +:+ "]".

Definition hint (originFS : string) (knownFS : list string) : string :=
  "Hint: unknown filesystem " +:+ originFS +:+ ". Known are: " +:+ fmtSlice knownFS.

Definition informIfUnknownFS (originFS : string) : M World unit :=
  let* (knownFS, known, err) := getSupportedFilesystem originFS in
  match err with
  | Some _ => ret tt
  | None => if negb known then logPrintf (hint originFS knownFS) else ret tt
  end.

(** *** [main] *)

(** Lines 111 to 117: the mount tables, tried in turn. *)
Fixpoint listMounts (n : list string) : M World unit :=
  match n with
  | [] => ret tt
  | p :: rest =>
      let* (b, err) := ioReadFile p in
      match err with
      | None => emit (EvPrint b) >> exit 0
      | Some _ => listMounts rest
      end
  end.

(** Line 119: [flag.Parse()]. *)
Definition flagParse_ (argv : list string) : M World Flags :=
  fun w =>
    match flagParse argv with
    | ParseExit out code => (Exit code, w, out)
    | Parsed f => (Ret f, w, [])
    end.

(** Lines 133 to 147: the loop over the options, with the variables [dev],
    [flags] and [data] it updates. *)
Fixpoint tokenLoop (options : list string) (dev : string) (flags : Z)
    (data : list string) : M World (string * Z * list string) :=
  match options with
  | [] => ret (dev, flags, data)
  | option :: rest =>
      if String.eqb option "loop" then
        let* (dev, err) := loopSetup dev in
        match err with
        | Some e => logFatal ("Error setting loop device:" +:+ e)
        | None => tokenLoop rest dev flags data
        end
      else
        match opts !! option with
        | Some f => tokenLoop rest dev (Z.lor flags f) data
        | None => tokenLoop rest dev flags (data ++ [option])
        end
  end.

(** Lines 148 to 168: the flags of the command line, in the order of the
    program. *)
Definition convenienceFlags (c : Flags) (flags : Z) : Z :=
  let flags := if ro c then Z.lor flags MS_RDONLY else flags in
  let flags := if bind c || rbind c then Z.lor flags MS_BIND else flags in
  let flags := if makeShared c || makeRShared c then Z.lor flags MS_SHARED else flags in
  let flags := if makeSlave c || makeRSlave c then Z.lor flags MS_SLAVE else flags in
  let flags := if makePrivate c || makeRPrivate c then Z.lor flags MS_PRIVATE else flags in
  let flags := if makeUnbindable c || makeRUnbindable c
               then Z.lor flags MS_UNBINDABLE else flags in
  let flags := if rbind c || makeRShared c || makeRSlave c || makeRPrivate c
                  || makeRUnbindable c
               then Z.lor flags (Z.lor MS_BIND MS_REC) else flags in
  flags.

(** Lines 169 to 179: the call of the mount primitive. *)
Definition dispatch (c : Flags) (dev path : string) (data : list string) (flags : Z)
    : M World unit :=
  if String.eqb (fsType c) "" then
    let* err := mountTryMount dev path (Strings.Join data ",") flags in
    match err with
    | Some e => logFatal e
    | None => ret tt
    end
  else
    let* err := mountMount dev path (fsType c) (Strings.Join data ",") flags in
    match err with
    | Some e => logPrintf e >> informIfUnknownFS (fsType c) >> exit 1
    | None => ret tt
    end.

(** Lines 120 to 179: what [main] does with the parsed command line. *)
Definition mountWith (c : Flags) : M World unit :=
  let options := accumulate (optionValues c) in
  if (Z.of_nat (length (Args c)) <? 2) then emit EvUsage >> exit 1
  else
    let a := Args c in
    let* dev := index a 0 in
    let* path := (if 1 <? Z.of_nat (length a) then index a 1 else ret "") in
    let* (dev, flags, data) := tokenLoop options dev 0 [] in
    let flags := convenienceFlags c flags in
    dispatch c dev path data flags.

(** The paths of line 111. *)
Definition mountTables : list string :=
  ["/proc/self/mounts"; "/proc/mounts"; "/etc/mtab"].

Definition main (argv : list string) : M World unit :=
  listMounts mountTables >>
  let* c := flagParse_ argv in
  mountWith c.

End Program.

(** ** Notions the properties are stated with *)

(** The last field of a line, when it has one. *)
Definition lastField (line : string) : option string :=
  last (Strings.Fields line).

(** The last fields of the lines of a listing that have one, in the order of
    the lines. *)
Definition lastFields (fs : string) : list string :=
  omap lastField (Strings.Split fs "010").

Section Notions.
Context {World : Type} `{Env World}.

(** Whether [ioutil.ReadFile] succeeds on a path. *)
Definition readable (path : string) (w : World) : bool :=
  match snd (ReadFile path w) with
  | None => true
  | Some _ => false
  end.

(** The bitwise or of the entries of [opts] for the tokens it has. *)
Definition tableFlags (options : list string) : Z :=
  fold_right Z.lor 0 (omap (fun option => opts !! option) options).

(** The flag of a token in the loop over the options: its entry of [opts],
    unless it is ["loop"], which the loop takes before it looks in [opts]. *)
Definition entry (token : string) : option Z :=
  if String.eqb token "loop" then None else opts !! token.

Definition tokenFlags (options : list string) : Z :=
  fold_right Z.lor 0 (omap entry options).

(** A token that is neither ["loop"] nor a key of [opts]. *)
Definition unknown (option : string) : bool :=
  negb (String.eqb option "loop") &&
  match opts !! option with
  | Some _ => false
  | None => true
  end.

Definition unknownTokens (options : list string) : list string :=
  List.filter unknown options.

(** What [informIfUnknownFS] writes for a type in a world: the hint when
    the listing can be read and no line of it ends with the type. *)
Definition hintEvents (originFS : string) (w : World) : list event :=
  match ReadFile "/proc/filesystems" w with
  | (fs, None) =>
      if existsb (fun x => String.eqb x originFS) (lastFields fs) then []
      else [EvLog (hint originFS (lastFields fs))]
  | (_, Some _) => []
  end.

End Notions.

(** The values of a [uintptr]. *)
Definition uintptr (x : Z) : Prop := 0 <= x < 2 ^ 64.

(** The calls of the mount primitives among the events. *)
Definition isMountCall (e : event) : bool :=
  match e with
  | EvTryMount _ _ _ _ | EvMount _ _ _ _ _ => true
  | _ => false
  end.

(** A call of [loopSetup] starts with its call of [loop.FindDevice], and
    nothing else calls it: the calls of [loopSetup] are counted by these. *)
Definition isFindDevice (e : event) : bool :=
  match e with
  | EvFindDevice => true
  | _ => false
  end.

Definition loopSetupCalls (t : list event) : nat :=
  length (List.filter isFindDevice t).

(** How many times a token occurs among the options. *)
Definition occurrences (token : string) (options : list string) : nat :=
  length (List.filter (String.eqb token) options).

(** The call of the mount primitive that [dispatch] makes. *)
Definition mountCall (c : Flags) (dev path : string) (data : list string) (flags : Z)
    : event :=
  if String.eqb (fsType c) "" then EvTryMount dev path (Strings.Join data ",") flags
  else EvMount dev path (fsType c) (Strings.Join data ",") flags.

(** The flags of the command line that ask for recursion. *)
Definition anyRecursive (c : Flags) : bool :=
  rbind c || makeRShared c || makeRSlave c || makeRPrivate c || makeRUnbindable c.

(** The bits a command line asks for by itself, recursion apart. *)
Definition ownBits (c : Flags) : Z :=
  Z.lor (if ro c then MS_RDONLY else 0)
 (Z.lor (if bind c || rbind c then MS_BIND else 0)
 (Z.lor (if makeShared c || makeRShared c then MS_SHARED else 0)
 (Z.lor (if makeSlave c || makeRSlave c then MS_SLAVE else 0)
 (Z.lor (if makePrivate c || makeRPrivate c then MS_PRIVATE else 0)
        (if makeUnbindable c || makeRUnbindable c then MS_UNBINDABLE else 0))))).

(** No flag given, no argument. *)
Definition noFlags : Flags :=
  {| ro := false; fsType := ""; bind := false; rbind := false;
     makeShared := false; makeSlave := false; makePrivate := false;
     makeUnbindable := false; makeRShared := false; makeRSlave := false;
     makeRPrivate := false; makeRUnbindable := false;
     optionValues := []; Args := [] |}.

(** The flags of two command lines together; the rest from the first. *)
Definition bothFlags (c1 c2 : Flags) : Flags :=
  {| ro := ro c1 || ro c2; fsType := fsType c1;
     bind := bind c1 || bind c2; rbind := rbind c1 || rbind c2;
     makeShared := makeShared c1 || makeShared c2;
     makeSlave := makeSlave c1 || makeSlave c2;
     makePrivate := makePrivate c1 || makePrivate c2;
     makeUnbindable := makeUnbindable c1 || makeUnbindable c2;
     makeRShared := makeRShared c1 || makeRShared c2;
     makeRSlave := makeRSlave c1 || makeRSlave c2;
     makeRPrivate := makeRPrivate c1 || makeRPrivate c2;
     makeRUnbindable := makeRUnbindable c1 || makeRUnbindable c2;
     optionValues := optionValues c1; Args := Args c1 |}.

(** A command line with other positional arguments. *)
Definition withArgs (c : Flags) (a : list string) : Flags :=
  {| ro := ro c; fsType := fsType c; bind := bind c; rbind := rbind c;
     makeShared := makeShared c; makeSlave := makeSlave c;
     makePrivate := makePrivate c; makeUnbindable := makeUnbindable c;
     makeRShared := makeRShared c; makeRSlave := makeRSlave c;
     makeRPrivate := makeRPrivate c; makeRUnbindable := makeRUnbindable c;
     optionValues := optionValues c; Args := a |}.

(** *** Further notions *)

(** How many commas a string holds. *)
Definition commas (s : string) : nat :=
  length (List.filter (Ascii.eqb ",") (list_ascii_of_string s)).

(** A string without comma. *)
Definition commaFree (s : string) : Prop :=
  ~ In ","%char (list_ascii_of_string s).

(** A token other than ["loop"]. *)
Definition notLoop (token : string) : bool :=
  negb (String.eqb token "loop").

(** The calls of package [loop] among the events. *)
Definition isLoopCall (e : event) : bool :=
  match e with
  | EvFindDevice | EvSetFile _ _ => true
  | _ => false
  end.

(** What is written to the logger among the events. *)
Definition isLog (e : event) : bool :=
  match e with
  | EvLog _ => true
  | _ => false
  end.

(** The bits lines 148 to 168 can set. *)
Definition convenienceMask : Z :=
  Z.lor MS_RDONLY (Z.lor MS_BIND (Z.lor MS_REC (Z.lor MS_SHARED
    (Z.lor MS_SLAVE (Z.lor MS_PRIVATE MS_UNBINDABLE))))).

(** A command line with other values for its [-o] flags. *)
Definition withOptionValues (c : Flags) (values : list string) : Flags :=
  {| ro := ro c; fsType := fsType c; bind := bind c; rbind := rbind c;
     makeShared := makeShared c; makeSlave := makeSlave c;
     makePrivate := makePrivate c; makeUnbindable := makeUnbindable c;
     makeRShared := makeRShared c; makeRSlave := makeRSlave c;
     makeRPrivate := makeRPrivate c; makeRUnbindable := makeRUnbindable c;
     optionValues := values; Args := Args c |}.

(** The white space of ASCII: tab, newline, vertical tab, form feed,
    carriage return and space. *)
Definition asciiSpace (c : ascii) : bool :=
  let b := N_of_ascii c in ((9 <=? b) && (b <=? 13) || (b =? 32))%N.

Section Primitive.
Context {World : Type} `{Env World}.

(** The mount primitive [dispatch] calls, by its result: [mount.TryMount]
    without a type, [mount.Mount] with one. *)
Definition mountPrimitive (c : Flags) (dev path : string) (data : list string)
    (flags : Z) (w : World) : option error * World :=
  if String.eqb (fsType c) ""
  then TryMount dev path (Strings.Join data ",") flags w
  else Mount dev path (fsType c) (Strings.Join data ",") flags w.

End Primitive.

(** ** A small world to run the program in *)

Module Demo.

(** The files that can be read with their contents, the loop devices that
    are free, the files bound to loop devices, and the filesystem types the
    kernel mounts. *)
Record world : Type := {
  files : list (string * string);
  freeLoops : list string;
  bound : list (string * string);
  kernelTypes : list string
}.

Fixpoint lookupFile (path : string) (fs : list (string * string)) : string * option error :=
  match fs with
  | [] => ("", Some ("open " +:+ path +:+ ": no such file or directory"))
  | (p, content) :: rest =>
      if String.eqb p path then (content, None) else lookupFile path rest
  end.

Definition findDevice (w : world) : (string * option error) * world :=
  match freeLoops w with
  | [] => (("", Some "no free loop device"), w)
  | d :: rest =>
      ((d, None),
       {| files := files w; freeLoops := rest; bound := bound w;
          kernelTypes := kernelTypes w |})
  end.

Definition setFile (devicename filename : string) (w : world) : option error * world :=
  (None,
   {| files := files w; freeLoops := freeLoops w;
      bound := (devicename, filename) :: bound w; kernelTypes := kernelTypes w |}).

Definition tryMount (dev path data : string) (flags : Z) (w : world)
    : option error * world :=
  (None, w).

Definition mount (dev path fstype data : string) (flags : Z) (w : world)
    : option error * world :=
  if existsb (String.eqb fstype) (kernelTypes w) then (None, w)
  else (Some "no such device", w).

(** A few entries of the kind [opts] holds. *)
Definition table : gmap string Z :=
  list_to_map [("ro", MS_RDONLY); ("nosuid", 0x2); ("nodev", 0x4); ("noexec", 0x8);
               ("bind", MS_BIND)].

(** A reader of the command lines of the examples: [-r], [-rbind],
    [-make-rshared], [-o value], [-t type], then the arguments. *)
Fixpoint parseFrom (c : Flags) (argv : list string) : parsed :=
  match argv with
  | [] => Parsed c
  | a :: rest =>
      if String.eqb a "-r" then
        parseFrom
          {| ro := true; fsType := fsType c; bind := bind c; rbind := rbind c;
             makeShared := makeShared c; makeSlave := makeSlave c;
             makePrivate := makePrivate c; makeUnbindable := makeUnbindable c;
             makeRShared := makeRShared c; makeRSlave := makeRSlave c;
             makeRPrivate := makeRPrivate c; makeRUnbindable := makeRUnbindable c;
             optionValues := optionValues c; Args := Args c |} rest
      else if String.eqb a "-rbind" then
        parseFrom (bothFlags c
          {| ro := false; fsType := ""; bind := false; rbind := true;
             makeShared := false; makeSlave := false; makePrivate := false;
             makeUnbindable := false; makeRShared := false; makeRSlave := false;
             makeRPrivate := false; makeRUnbindable := false;
             optionValues := []; Args := [] |}) rest
      else if String.eqb a "-make-rshared" then
        parseFrom (bothFlags c
          {| ro := false; fsType := ""; bind := false; rbind := false;
             makeShared := false; makeSlave := false; makePrivate := false;
             makeUnbindable := false; makeRShared := true; makeRSlave := false;
             makeRPrivate := false; makeRUnbindable := false;
             optionValues := []; Args := [] |}) rest
      else if String.eqb a "-o" then
        match rest with
        | [] => ParseExit [EvLog "flag needs an argument: -o"; EvUsage] 2
        | v :: rest' =>
            parseFrom
              {| ro := ro c; fsType := fsType c; bind := bind c; rbind := rbind c;
                 makeShared := makeShared c; makeSlave := makeSlave c;
                 makePrivate := makePrivate c; makeUnbindable := makeUnbindable c;
                 makeRShared := makeRShared c; makeRSlave := makeRSlave c;
                 makeRPrivate := makeRPrivate c; makeRUnbindable := makeRUnbindable c;
                 optionValues := optionValues c ++ [v]; Args := Args c |} rest'
        end
      else if String.eqb a "-t" then
        match rest with
        | [] => ParseExit [EvLog "flag needs an argument: -t"; EvUsage] 2
        | v :: rest' =>
            parseFrom
              {| ro := ro c; fsType := v; bind := bind c; rbind := rbind c;
                 makeShared := makeShared c; makeSlave := makeSlave c;
                 makePrivate := makePrivate c; makeUnbindable := makeUnbindable c;
                 makeRShared := makeRShared c; makeRSlave := makeRSlave c;
                 makeRPrivate := makeRPrivate c; makeRUnbindable := makeRUnbindable c;
                 optionValues := optionValues c; Args := Args c |} rest'
        end
      else Parsed (withArgs c argv)
  end.

#[global] Instance env : Env world := {
  ReadFile path w := lookupFile path (files w);
  FindDevice := findDevice;
  SetFile := setFile;
  TryMount := tryMount;
  Mount := mount;
  opts := table;
  flagParse := parseFrom noFlags
}.

(** The listing of a kernel with four filesystem types; the third line is
    blank. *)
Definition filesystems : string :=
  "nodev" +:+ String "009" "sysfs" +:+ String "010" (
  "nodev" +:+ String "009" "proc" +:+ String "010" (
  String "010" (
  String "009" "ext4" +:+ String "010" (
  String "009" "vfat" +:+ String "010" "")))).

(** A machine on which no mount table can be read. *)
Definition bare : world :=
  {| files := [("/proc/filesystems", filesystems)];
     freeLoops := ["/dev/loop0"; "/dev/loop1"];
     bound := [];
     kernelTypes := ["sysfs"; "proc"; "ext4"; "vfat"] |}.

(** The same without the listing of the filesystem types. *)
Definition blind : world :=
  {| files := [];
     freeLoops := ["/dev/loop0"; "/dev/loop1"];
     bound := [];
     kernelTypes := ["sysfs"; "proc"; "ext4"; "vfat"] |}.

(** A machine with [/proc/mounts] but not [/proc/self/mounts]. *)
Definition booted : world :=
  {| files := [("/proc/mounts", "proc /proc proc rw 0 0" +:+ String "010" "");
               ("/etc/mtab", "stale");
               ("/proc/filesystems", filesystems)];
     freeLoops := ["/dev/loop0"];
     bound := [];
     kernelTypes := ["sysfs"; "proc"; "ext4"; "vfat"] |}.

(** A machine whose loop devices are all taken. *)
Definition crowded : world :=
  {| files := [("/proc/filesystems", filesystems)];
     freeLoops := [];
     bound := [("/dev/loop0", "other.img")];
     kernelTypes := ["sysfs"; "proc"; "ext4"; "vfat"] |}.

(** The same primitives with a [mount.TryMount] that finds no filesystem
    it can mount. *)
Definition stubborn : Env world :=
  {| ReadFile path w := lookupFile path (files w);
     FindDevice := findDevice;
     SetFile := setFile;
     TryMount dev path data flags w := (Some "no suitable filesystem", w);
     Mount := mount;
     opts := table;
     flagParse := parseFrom noFlags |}.

(** The same primitives with a table that has an entry for ["loop"]. *)
Definition shadowed : Env world :=
  {| ReadFile path w := lookupFile path (files w);
     FindDevice := findDevice;
     SetFile := setFile;
     TryMount := tryMount;
     Mount := mount;
     opts := <["loop" := 0x8000]> table;
     flagParse := parseFrom noFlags |}.

(** The variables of the flags after a command line of the examples. *)
Definition flagsOf (argv : list string) : Flags :=
  match parseFrom noFlags argv with
  | Parsed c => c
  | ParseExit _ _ => noFlags
  end.

End Demo.

Example Split_commas : Strings.Split "ro,,noexec" "," = ["ro"; ""; "noexec"].
Proof. reflexivity. Qed.

Example Split_empty : Strings.Split "" "," = [""].
Proof. reflexivity. Qed.

Example Join_commas : Strings.Join ["a"; "b"; "c"] "," = "a,b,c".
Proof. reflexivity. Qed.

Example Fields_nodev :
  Strings.Fields (String "n" (String "o" (String "d" (String "e" (String "v"
    (String "009" "proc")))))) = ["nodev"; "proc"].
Proof. reflexivity. Qed.

Example Fields_nbsp :
  Strings.Fields (String "a" (String "194" (String "160" "b"))) = ["a"; "b"].
Proof. reflexivity. Qed.

Example Fields_blank : Strings.Fields "   " = [].
Proof. reflexivity. Qed.

(** U+2003, an em space, separates; a truncated encoding of it does not. *)
Example Fields_em_space :
  Strings.Fields (String "a" (String "226" (String "128" (String "131" "b"))))
  = ["a"; "b"].
Proof. reflexivity. Qed.

Example Fields_truncated :
  Strings.Fields (String "a" (String "226" (String "128" "b")))
  = [String "a" (String "226" (String "128" "b"))].
Proof. reflexivity. Qed.

Example accumulate_twice : accumulate ["ro,uid=3"; ""; "loop"] = ["ro"; "uid=3"; ""; "loop"].
Proof. reflexivity. Qed.

(** A device, a path, no option and no type: [mount.TryMount] is called with
    no flag and no data. *)
Example main_plain :
  main ["/dev/sda1"; "/mnt"] Demo.bare
  = (Ret tt, Demo.bare,
     [EvReadFile "/proc/self/mounts"; EvReadFile "/proc/mounts"; EvReadFile "/etc/mtab";
      EvTryMount "/dev/sda1" "/mnt" "" 0]).
Proof. reflexivity. Qed.

(** One argument only: the usage, status 1. *)
Example main_usage :
  main ["-r"; "/dev/sda1"] Demo.bare
  = (Exit 1, Demo.bare,
     [EvReadFile "/proc/self/mounts"; EvReadFile "/proc/mounts"; EvReadFile "/etc/mtab";
      EvUsage]).
Proof. reflexivity. Qed.

(** No argument and a mount table: the table, status 0. *)
Example main_listing :
  main [] Demo.booted
  = (Exit 0, Demo.booted,
     [EvReadFile "/proc/self/mounts"; EvReadFile "/proc/mounts";
      EvPrint ("proc /proc proc rw 0 0" +:+ String "010" "")]).
Proof. reflexivity. Qed.

(** No loop device left: the failure is fatal and nothing is mounted. *)
Example main_loop_fatal :
  main ["-o"; "ro,loop"; "disk.img"; "/mnt"] Demo.crowded
  = (Exit 1, Demo.crowded,
     [EvReadFile "/proc/self/mounts"; EvReadFile "/proc/mounts"; EvReadFile "/etc/mtab";
      EvFindDevice; EvLog "Error setting loop device:no free loop device"]).
Proof. reflexivity. Qed.

(** A known type: the mount succeeds and [main] returns. *)
Example main_typed :
  main ["-t"; "ext4"; "-o"; "noexec,journal=1"; "/dev/sda1"; "/mnt"] Demo.bare
  = (Ret tt, Demo.bare,
     [EvReadFile "/proc/self/mounts"; EvReadFile "/proc/mounts"; EvReadFile "/etc/mtab";
      EvMount "/dev/sda1" "/mnt" "ext4" "journal=1" 8]).
Proof. reflexivity. Qed.


(** ** The monad *)

Lemma seq_ret {World A B : Type} (a : A) (k : A -> M World B) (w : World) :
  seq (ret a) k w = k a w.
Proof. unfold seq, ret. destruct (k a w) as [[o w2] t2]. reflexivity. Qed.

Lemma seq_assoc {World A B C : Type} (m : M World A) (k : A -> M World B)
    (k' : B -> M World C) (w : World) :
  seq (seq m k) k' w = seq m (fun a => seq (k a) k') w.
Proof.
  unfold seq. destruct (m w) as [[[a | code |] w1] t1]; try reflexivity.
  destruct (k a w1) as [[[b | code |] w2] t2]; try reflexivity.
  destruct (k' b w2) as [[o w3] t3]. rewrite app_assoc. reflexivity.
Qed.

Lemma seq_ext {World A B : Type} (m : M World A) (k k' : A -> M World B) (w : World) :
  (forall a w1, k a w1 = k' a w1) -> seq m k w = seq m k' w.
Proof.
  intros E. unfold seq. destruct (m w) as [[[a | code |] w1] t1]; try reflexivity.
  rewrite E. reflexivity.
Qed.

(** ** Package [strings] *)

Lemma Split_nonempty (s : string) (sep : ascii) : Strings.Split s sep <> [].
Proof.
  destruct s as [| c s]; simpl; [discriminate |].
  destruct (Ascii.eqb c sep); [discriminate |].
  destruct (Strings.Split s sep); discriminate.
Qed.

Lemma flush_nonempty (cur : string) : Forall (fun x => x <> EmptyString) (Strings.flush cur).
Proof. destruct cur; simpl; constructor; [discriminate | constructor]. Qed.

(** No field of [strings.Fields] is empty. *)
Lemma fieldsFrom_nonempty (s : string) :
  forall skip cur, Forall (fun x => x <> EmptyString) (Strings.fieldsFrom skip cur s).
Proof.
  induction s as [| c s IH]; intros skip cur; cbn [Strings.fieldsFrom].
  - apply flush_nonempty.
  - destruct skip as [| k]; [| apply IH].
    destruct (Strings.spaceWidth (Strings.bytes (String c s))); [apply IH |].
    apply Forall_app. split; [apply flush_nonempty | apply IH].
Qed.

Lemma Fields_nonempty (s : string) :
  Forall (fun x => x <> EmptyString) (Strings.Fields s).
Proof. apply fieldsFrom_nonempty. Qed.

(** ** [mountOptions] *)

Lemma fold_left_snoc {A : Type} (l o : list A) :
  fold_left (fun o x => o ++ [x]) l o = o ++ l.
Proof.
  revert o. induction l as [| x l IH]; intros o; simpl.
  - rewrite app_nil_r. reflexivity.
  - rewrite IH, <- app_assoc. reflexivity.
Qed.

(** [Set] appends the pieces of its argument between commas. *)
Lemma Set_appends (o : list string) (value : string) :
  Set_ o value = (o ++ Strings.Split value ",", None).
Proof. unfold Set_. rewrite fold_left_snoc. reflexivity. Qed.

Lemma accumulate_from (values : list string) (o : list string) :
  fold_left (fun o value => fst (Set_ o value)) values o
  = o ++ concat (map (fun value => Strings.Split value ",") values).
Proof.
  revert o. induction values as [| v values IH]; intros o; cbn [fold_left map concat].
  - rewrite app_nil_r. reflexivity.
  - rewrite IH, Set_appends. cbn [fst]. rewrite <- app_assoc. reflexivity.
Qed.

Lemma accumulate_concat (values : list string) :
  accumulate values = concat (map (fun value => Strings.Split value ",") values).
Proof. unfold accumulate. rewrite accumulate_from. reflexivity. Qed.

(** ** The loop over the options *)

Section TokenLoop.
Context {World : Type} `{Env World}.

Lemma loopSetupCalls_app (t1 t2 : list event) :
  loopSetupCalls (t1 ++ t2) = (loopSetupCalls t1 + loopSetupCalls t2)%nat.
Proof. unfold loopSetupCalls. rewrite List.filter_app, length_app. reflexivity. Qed.

(** [loopSetup] returns, after one call of [loop.FindDevice] and no call of
    a mount primitive. *)
Lemma loopSetup_returns (filename : string) (w : World) :
  exists r w' t,
    loopSetup filename w = (Ret r, w', t) /\
    loopSetupCalls t = 1%nat /\ List.filter isMountCall t = [].
Proof.
  unfold loopSetup, seq, loopFindDevice, loopSetFile.
  destruct (FindDevice w) as [[loopDevice [e |]] w1]; simpl.
  - eexists _, _, _. split; [reflexivity |]. split; reflexivity.
  - destruct (SetFile loopDevice filename w1) as [[e |] w2]; simpl;
      (eexists _, _, _; split; [reflexivity |]; split; reflexivity).
Qed.

Lemma unknown_not_loop (option : string) :
  String.eqb option "loop" = false ->
  unknown option = match opts !! option with Some _ => false | None => true end.
Proof. intros E. unfold unknown. rewrite E. reflexivity. Qed.

Lemma logFatal_run {A : Type} (msg : string) (w : World) :
  logFatal (A := A) msg w = (Exit 1, w, [EvLog msg]).
Proof. reflexivity. Qed.

(** What a run of the loop over the options leaves, however it ends: it
    stops only at a ["loop"] whose [loopSetup] fails. *)
Lemma tokenLoop_run (options : list string) :
  forall dev flags data w o w' t,
    tokenLoop options dev flags data w = (o, w', t) ->
    List.filter isMountCall t = [] /\
    match o with
    | Ret (dev', flags', data') =>
        flags' = Z.lor flags (tokenFlags options) /\
        data' = data ++ unknownTokens options /\
        loopSetupCalls t = occurrences "loop" options
    | Exit code =>
        code = 1 /\ (1 <= loopSetupCalls t <= occurrences "loop" options)%nat
    | Panic => False
    end.
Proof.
  induction options as [| option rest IH]; intros dev flags data w o w' t E.
  - injection E as <- <- <-. split; [reflexivity |].
    unfold tokenFlags, unknownTokens. simpl.
    rewrite Z.lor_0_r, app_nil_r. auto.
  - cbn [tokenLoop] in E. unfold occurrences, tokenFlags, unknownTokens.
    cbn [List.filter omap list_omap].
    rewrite (String.eqb_sym "loop" option). unfold entry at 1, unknown at 1.
    destruct (String.eqb option "loop") eqn:L.
    + apply String.eqb_eq in L. subst option.
      unfold seq in E.
      destruct (loopSetup_returns dev w) as (r & w1 & t1 & E1 & C1 & M1).
      rewrite E1 in E. destruct r as [dev1 [e |]].
      * rewrite logFatal_run in E. injection E as <- <- <-.
        split; [rewrite List.filter_app, M1; reflexivity |].
        split; [reflexivity |].
        rewrite loopSetupCalls_app, C1. cbn [length].
        change (loopSetupCalls [EvLog ("Error setting loop device:" +:+ e)]) with 0%nat.
        lia.
      * destruct (tokenLoop rest dev1 flags data w1) as [[o2 w2] t2] eqn:E2.
        injection E as <- <- <-.
        apply IH in E2. destruct E2 as [M2 R2].
        split; [rewrite List.filter_app, M1, M2; reflexivity |].
        rewrite loopSetupCalls_app, C1. cbn [length]. fold (occurrences "loop" rest).
        destruct o2 as [[[dev' flags'] data'] | code |]; [| | exact R2].
        -- destruct R2 as (F & D & C). repeat split; [exact F | exact D |].
           rewrite C. reflexivity.
        -- destruct R2 as (-> & C). split; [reflexivity | lia].
    + cbn [negb andb]. fold (occurrences "loop" rest).
      destruct (opts !! option) as [f |] eqn:O; apply IH in E;
        destruct E as [M2 R2]; (split; [exact M2 |]);
        (destruct o as [[[dev' flags'] data'] | code |]; [| exact R2 | exact R2]);
        destruct R2 as (F & D & C); repeat split; try exact C.
      * rewrite F. cbn [fold_right]. rewrite Z.lor_assoc. reflexivity.
      * exact D.
      * exact F.
      * rewrite D, <- app_assoc. reflexivity.
Qed.

(** The loop over two sequences of options, one after the other. *)
Lemma tokenLoop_app (l1 l2 : list string) :
  forall dev flags data w,
    tokenLoop (l1 ++ l2) dev flags data w
    = seq (tokenLoop l1 dev flags data)
          (fun r => tokenLoop l2 (fst (fst r)) (snd (fst r)) (snd r)) w.
Proof.
  induction l1 as [| option rest IH]; intros dev flags data w.
  - cbn [app tokenLoop]. rewrite seq_ret. reflexivity.
  - cbn [app tokenLoop]. destruct (String.eqb option "loop").
    + rewrite seq_assoc. apply seq_ext. intros [dev1 [e |]] w1.
      * reflexivity.
      * apply IH.
    + destruct (opts !! option); apply IH.
Qed.

(** Without ["loop"] among the options the loop calls nothing and returns. *)
Lemma tokenLoop_pure (options : list string) :
  ~ In "loop" options ->
  forall dev flags data w,
    tokenLoop options dev flags data w
    = (Ret (dev, Z.lor flags (tokenFlags options), data ++ unknownTokens options), w, []).
Proof.
  induction options as [| option rest IH]; intros N dev flags data w.
  - unfold tokenFlags, unknownTokens. simpl. rewrite Z.lor_0_r, app_nil_r. reflexivity.
  - assert (L : String.eqb option "loop" = false).
    { apply String.eqb_neq. intros ->. apply N. left. reflexivity. }
    assert (N' : ~ In "loop" rest) by (intros I; apply N; right; exact I).
    cbn [tokenLoop]. unfold tokenFlags, unknownTokens.
    cbn [List.filter omap list_omap]. unfold entry at 1, unknown at 1.
    rewrite L. cbn [negb andb].
    destruct (opts !! option) as [f |]; rewrite (IH N').
    + cbn [fold_right]. rewrite Z.lor_assoc. reflexivity.
    + rewrite <- app_assoc. reflexivity.
Qed.

Lemma tokenFlags_table (options : list string) :
  ~ In "loop" options -> tokenFlags options = tableFlags options.
Proof.
  unfold tokenFlags, tableFlags.
  induction options as [| option rest IH]; intros N; [reflexivity |].
  assert (L : String.eqb option "loop" = false).
  { apply String.eqb_neq. intros ->. apply N. left. reflexivity. }
  cbn [omap list_omap]. unfold entry at 1. rewrite L.
  assert (N' : ~ In "loop" rest) by (intros I; apply N; right; exact I).
  destruct (opts !! option); cbn [fold_right]; rewrite (IH N'); reflexivity.
Qed.

(** Bit [i] of the flags of the options is set when it is in the entry of
    one of them. *)
Lemma tokenFlags_testbit (options : list string) (i : Z) :
  Z.testbit (tokenFlags options) i
  = existsb (fun token => match entry token with
                          | Some f => Z.testbit f i
                          | None => false
                          end) options.
Proof.
  unfold tokenFlags. induction options as [| option rest IH]; cbn [omap list_omap existsb].
  - apply Z.bits_0.
  - destruct (entry option) as [f |]; cbn [fold_right].
    + rewrite Z.lor_spec, IH. reflexivity.
    + exact IH.
Qed.

(** The flags depend on the set of the options only. *)
Lemma tokenFlags_same_tokens (l1 l2 : list string) :
  (forall token, In token l1 <-> In token l2) -> tokenFlags l1 = tokenFlags l2.
Proof.
  intros S. apply Z.bits_inj'. intros i _. rewrite !tokenFlags_testbit.
  apply eq_true_iff_eq. rewrite !existsb_exists.
  split; intros (token & I & T); exists token; (split; [apply S; exact I | exact T]).
Qed.

(** The unknown tokens give no flag. *)
Lemma tokenFlags_known (options : list string) :
  tokenFlags options = tokenFlags (List.filter (fun token => negb (unknown token)) options).
Proof.
  unfold tokenFlags. induction options as [| option rest IH]; [reflexivity |].
  cbn [List.filter omap list_omap]. unfold entry at 1, unknown at 1.
  destruct (String.eqb option "loop") eqn:L; cbn [negb andb].
  - cbn [omap list_omap]. unfold entry at 2. rewrite L. exact IH.
  - destruct (opts !! option) as [f |] eqn:O; cbn [negb].
    + cbn [omap list_omap]. unfold entry at 2. rewrite L, O.
      cbn [fold_right]. rewrite IH. reflexivity.
    + exact IH.
Qed.

End TokenLoop.

(** ** The mount tables *)

Section Main.
Context {World : Type} `{Env World}.

Lemma ioReadFile_run (path : string) (w : World) :
  ioReadFile path w = (Ret (ReadFile path w), w, [EvReadFile path]).
Proof. reflexivity. Qed.

(** No table can be read: all are tried and [listMounts] returns. *)
Lemma listMounts_none (n : list string) (w : World) :
  (forall p, In p n -> readable p w = false) ->
  listMounts n w = (Ret tt, w, map EvReadFile n).
Proof.
  induction n as [| p rest IH]; intros U; [reflexivity |].
  cbn [listMounts]. unfold seq. rewrite ioReadFile_run.
  pose proof (U p (or_introl eq_refl)) as Up. unfold readable in Up.
  destruct (ReadFile p w) as [b [e |]]; [| discriminate Up].
  rewrite IH by (intros q I; apply U; right; exact I). reflexivity.
Qed.

(** The first table that can be read is printed and the process ends. *)
Lemma listMounts_first (before after : list string) (p b : string) (w : World) :
  (forall q, In q before -> readable q w = false) ->
  ReadFile p w = (b, None) ->
  listMounts (before ++ p :: after) w
  = (Exit 0, w, map EvReadFile before ++ [EvReadFile p; EvPrint b]).
Proof.
  induction before as [| q rest IH]; intros U R.
  - cbn [app listMounts]. unfold seq. rewrite ioReadFile_run, R. reflexivity.
  - cbn [app listMounts]. unfold seq. rewrite ioReadFile_run.
    pose proof (U q (or_introl eq_refl)) as Uq. unfold readable in Uq.
    destruct (ReadFile q w) as [b' [e |]]; [| discriminate Uq].
    rewrite IH by (try (intros q' I; apply U; right; exact I); exact R).
    reflexivity.
Qed.

(** ** The prober *)

Lemma index_last (n : list string) (x : string) (w : World) :
  last n = Some x ->
  index n (Z.of_nat (length n) - 1) w = (Ret x, w, []).
Proof.
  intros L. unfold index.
  destruct n as [| y n]; [discriminate L |].
  replace (Z.of_nat (length (y :: n)) - 1 <? 0) with false
    by (symmetry; apply Z.ltb_ge; cbn [length]; lia).
  replace (Z.to_nat (Z.of_nat (length (y :: n)) - 1)) with (pred (length (y :: n)))
    by (cbn [length]; lia).
  rewrite <- last_lookup, L. reflexivity.
Qed.

Lemma scanLines_run (originFS : string) (lines : list string) :
  forall known returnValue (w : World),
    scanLines originFS lines known returnValue w
    = (Ret (returnValue ++ omap lastField lines,
            known || existsb (fun x => String.eqb x originFS) (omap lastField lines)),
       w, []).
Proof.
  induction lines as [| f rest IH]; intros known returnValue w.
  - cbn. rewrite app_nil_r, orb_false_r. reflexivity.
  - cbn [scanLines omap list_omap]. change (lastField f) with (last (Strings.Fields f)).
    destruct (Strings.Fields f) as [| y n] eqn:F.
    + cbn [length last]. replace (Z.of_nat 0 - 1 <? 0) with true by reflexivity.
      apply IH.
    + replace (Z.of_nat (length (y :: n)) - 1 <? 0) with false
        by (symmetry; apply Z.ltb_ge; cbn [length]; lia).
      destruct (last (y :: n)) as [x |] eqn:L.
      2:{ apply last_None in L. discriminate L. }
      unfold seq. rewrite (index_last _ _ _ L). cbv beta iota.
      rewrite (index_last _ _ _ L), IH.
      cbn [existsb app]. rewrite <- app_assoc.
      destruct (String.eqb x originFS); destruct known; reflexivity.
Qed.

Lemma getSupportedFilesystem_read (originFS fs : string) (w : World) :
  ReadFile "/proc/filesystems" w = (fs, None) ->
  getSupportedFilesystem originFS w
  = (Ret (lastFields fs, existsb (fun x => String.eqb x originFS) (lastFields fs), None),
     w, [EvReadFile "/proc/filesystems"]).
Proof.
  intros R. unfold getSupportedFilesystem, seq.
  rewrite ioReadFile_run, R, scanLines_run. reflexivity.
Qed.

Lemma getSupportedFilesystem_unread (originFS fs : string) (e : error) (w : World) :
  ReadFile "/proc/filesystems" w = (fs, Some e) ->
  getSupportedFilesystem originFS w
  = (Ret ([], false, Some e), w, [EvReadFile "/proc/filesystems"]).
Proof.
  intros R. unfold getSupportedFilesystem, seq.
  rewrite ioReadFile_run, R. reflexivity.
Qed.

Lemma informIfUnknownFS_run (originFS : string) (w : World) :
  informIfUnknownFS originFS w
  = (Ret tt, w, EvReadFile "/proc/filesystems" :: hintEvents originFS w).
Proof.
  unfold informIfUnknownFS, hintEvents, seq.
  destruct (ReadFile "/proc/filesystems" w) as [fs [e |]] eqn:R.
  - rewrite (getSupportedFilesystem_unread _ _ _ _ R). reflexivity.
  - rewrite (getSupportedFilesystem_read _ _ _ R).
    destruct (existsb _ (lastFields fs)); reflexivity.
Qed.

Lemma hintEvents_no_mount (originFS : string) (w : World) :
  List.filter isMountCall (hintEvents originFS w) = [].
Proof.
  unfold hintEvents. destruct (ReadFile "/proc/filesystems" w) as [fs [e |]];
    [reflexivity |].
  destruct (existsb _ (lastFields fs)); reflexivity.
Qed.

(** ** The call of the mount primitive *)

(** Without [-t], [mount.TryMount] is called; its failure is fatal. *)
Lemma dispatch_guess (c : Flags) (dev path : string) (data : list string) (flags : Z)
    (w : World) :
  fsType c = "" ->
  dispatch c dev path data flags w
  = match TryMount dev path (Strings.Join data ",") flags w with
    | (Some e, w') =>
        (Exit 1, w', [EvTryMount dev path (Strings.Join data ",") flags; EvLog e])
    | (None, w') => (Ret tt, w', [EvTryMount dev path (Strings.Join data ",") flags])
    end.
Proof.
  intros T. unfold dispatch, seq, mountTryMount. rewrite T. cbn [String.eqb].
  destruct (TryMount dev path (Strings.Join data ",") flags w) as [[e |] w'];
    reflexivity.
Qed.

(** With [-t], [mount.Mount] is called; when it fails the error is logged,
    [informIfUnknownFS] runs and the process ends with status [1]. *)
Lemma dispatch_explicit (c : Flags) (dev path : string) (data : list string) (flags : Z)
    (w : World) :
  fsType c <> "" ->
  dispatch c dev path data flags w
  = match Mount dev path (fsType c) (Strings.Join data ",") flags w with
    | (Some e, w') =>
        (Exit 1, w',
         [EvMount dev path (fsType c) (Strings.Join data ",") flags; EvLog e;
          EvReadFile "/proc/filesystems"] ++ hintEvents (fsType c) w')
    | (None, w') =>
        (Ret tt, w', [EvMount dev path (fsType c) (Strings.Join data ",") flags])
    end.
Proof.
  intros T. apply String.eqb_neq in T. unfold dispatch, seq, mountMount. rewrite T.
  destruct (Mount dev path (fsType c) (Strings.Join data ",") flags w) as [[e |] w'];
    [| reflexivity].
  unfold logPrintf, emit. rewrite informIfUnknownFS_run.
  unfold exit. cbn [app]. rewrite app_nil_r. reflexivity.
Qed.

(** Either way [dispatch] calls a mount primitive once, first of all. *)
Lemma dispatch_calls (c : Flags) (dev path : string) (data : list string) (flags : Z)
    (w : World) :
  exists o w' t,
    dispatch c dev path data flags w = (o, w', mountCall c dev path data flags :: t) /\
    List.filter isMountCall t = [].
Proof.
  unfold mountCall. destruct (String.eqb (fsType c) "") eqn:T.
  - apply String.eqb_eq in T. rewrite (dispatch_guess _ _ _ _ _ _ T).
    destruct (TryMount dev path (Strings.Join data ",") flags w) as [[e |] w'];
      eexists _, _, _; split; reflexivity.
  - apply String.eqb_neq in T. rewrite (dispatch_explicit _ _ _ _ _ _ T).
    destruct (Mount dev path (fsType c) (Strings.Join data ",") flags w) as [[e |] w'];
      eexists _, _, _; (split; [reflexivity |]).
    + cbn [List.filter isMountCall]. apply hintEvents_no_mount.
    + reflexivity.
Qed.

(** ** [main] *)

(** With two arguments or more the device is the first and the path the
    second. *)
Lemma mountWith_args (c : Flags) (d p : string) (rest : list string) (w : World) :
  Args c = d :: p :: rest ->
  mountWith c w
  = seq (tokenLoop (accumulate (optionValues c)) d 0 [])
        (fun '(dev, flags, data) => dispatch c dev p data (convenienceFlags c flags)) w.
Proof.
  intros A. unfold mountWith. rewrite A.
  replace (Z.of_nat (length (d :: p :: rest)) <? 2) with false
    by (symmetry; apply Z.ltb_ge; cbn [length]; lia).
  replace (1 <? Z.of_nat (length (d :: p :: rest))) with true
    by (symmetry; apply Z.ltb_lt; cbn [length]; lia).
  change (index (d :: p :: rest) 0) with (ret (World := World) d).
  change (index (d :: p :: rest) 1) with (ret (World := World) p).
  rewrite seq_ret, seq_ret. reflexivity.
Qed.

(** With less than two arguments the usage is written and nothing else. *)
Lemma mountWith_usage (c : Flags) (w : World) :
  (length (Args c) < 2)%nat ->
  mountWith c w = (Exit 1, w, [EvUsage]).
Proof.
  intros A. unfold mountWith.
  replace (Z.of_nat (length (Args c)) <? 2) with true
    by (symmetry; apply Z.ltb_lt; lia).
  reflexivity.
Qed.

(** When no mount table can be read, [main] goes on with the command line. *)
Lemma main_parsed (argv : list string) (c : Flags) (w : World) :
  (forall p, In p mountTables -> readable p w = false) ->
  flagParse argv = Parsed c ->
  main argv w
  = (let '(o, w', t) := mountWith c w in (o, w', map EvReadFile mountTables ++ t)).
Proof.
  intros U P. unfold main. unfold seq at 1. rewrite (listMounts_none _ _ U).
  unfold seq, flagParse_. rewrite P.
  destruct (mountWith c w) as [[o w'] t]. reflexivity.
Qed.

(** The run of [main] that reaches the mount primitive. *)
Lemma main_dispatches (argv : list string) (c : Flags) (d p : string)
    (rest : list string) (w : World) (dev : string) (flags : Z) (data : list string)
    (w1 : World) (t1 : list event) :
  (forall q, In q mountTables -> readable q w = false) ->
  flagParse argv = Parsed c ->
  Args c = d :: p :: rest ->
  tokenLoop (accumulate (optionValues c)) d 0 [] w = (Ret (dev, flags, data), w1, t1) ->
  main argv w
  = (let '(o, w2, t2) := dispatch c dev p data (convenienceFlags c flags) w1 in
     (o, w2, map EvReadFile mountTables ++ t1 ++ t2)).
Proof.
  intros U P A L. rewrite (main_parsed _ _ _ U P), (mountWith_args _ _ _ _ _ A).
  unfold seq. rewrite L.
  destruct (dispatch c dev p data (convenienceFlags c flags) w1) as [[o w2] t2].
  reflexivity.
Qed.

(** The run of [main] that stops in the loop over the options. *)
Lemma main_loop_stops (argv : list string) (c : Flags) (d p : string)
    (rest : list string) (w : World) (code : Z) (w1 : World) (t1 : list event) :
  (forall q, In q mountTables -> readable q w = false) ->
  flagParse argv = Parsed c ->
  Args c = d :: p :: rest ->
  tokenLoop (accumulate (optionValues c)) d 0 [] w = (Exit code, w1, t1) ->
  main argv w = (Exit code, w1, map EvReadFile mountTables ++ t1).
Proof.
  intros U P A L. rewrite (main_parsed _ _ _ U P), (mountWith_args _ _ _ _ _ A).
  unfold seq. rewrite L. reflexivity.
Qed.

End Main.

(** ** Counting the calls *)

Section Calls.
Context {World : Type} `{Env World}.

Lemma reads_no_loopSetup (paths : list string) :
  loopSetupCalls (map EvReadFile paths) = 0%nat.
Proof. induction paths as [| p rest IH]; [reflexivity | exact IH]. Qed.

Lemma reads_no_mount (paths : list string) :
  List.filter isMountCall (map EvReadFile paths) = [].
Proof. induction paths as [| p rest IH]; [reflexivity | exact IH]. Qed.

Lemma hintEvents_no_loopSetup (originFS : string) (w : World) :
  loopSetupCalls (hintEvents originFS w) = 0%nat.
Proof.
  unfold hintEvents. destruct (ReadFile "/proc/filesystems" w) as [fs [e |]];
    [reflexivity |].
  destruct (existsb _ (lastFields fs)); reflexivity.
Qed.

(** [dispatch] does not call [loopSetup]. *)
Lemma dispatch_no_loopSetup (c : Flags) (dev path : string) (data : list string)
    (flags : Z) (w : World) :
  loopSetupCalls (snd (dispatch c dev path data flags w)) = 0%nat.
Proof.
  destruct (String.eqb (fsType c) "") eqn:T.
  - apply String.eqb_eq in T. rewrite (dispatch_guess _ _ _ _ _ _ T).
    destruct (TryMount dev path (Strings.Join data ",") flags w) as [[e |] w'];
      reflexivity.
  - apply String.eqb_neq in T. rewrite (dispatch_explicit _ _ _ _ _ _ T).
    destruct (Mount dev path (fsType c) (Strings.Join data ",") flags w) as [[e |] w'];
      [| reflexivity].
    cbn [snd]. rewrite loopSetupCalls_app, hintEvents_no_loopSetup. reflexivity.
Qed.

Lemma no_mount_existsb (t : list event) :
  List.filter isMountCall t = [] -> existsb isMountCall t = false.
Proof.
  induction t as [| e t IH]; [reflexivity |]. cbn [List.filter existsb].
  destruct (isMountCall e); [discriminate |]. exact IH.
Qed.

(** The device the loop over the options returns is the one its last
    [loopSetup] returned. *)
Lemma tokenLoop_last_loop (l1 l2 : list string) (d : string) (f : Z)
    (da : list string) (w : World) (dev : string) (flags : Z) (data : list string)
    (w' : World) (t : list event) :
  ~ In "loop" l2 ->
  tokenLoop (l1 ++ "loop" :: l2) d f da w = (Ret (dev, flags, data), w', t) ->
  exists d1 f1 data1 w1 t1 t2,
    tokenLoop l1 d f da w = (Ret (d1, f1, data1), w1, t1) /\
    loopSetup d1 w1 = (Ret (dev, None), w', t2) /\
    t = t1 ++ t2.
Proof.
  intros N E. rewrite tokenLoop_app in E. unfold seq at 1 in E.
  destruct (tokenLoop l1 d f da w) as [[[[[d1 f1] data1] | code |] w1] t1];
    [| discriminate E | discriminate E].
  cbn [fst snd tokenLoop String.eqb Ascii.eqb Bool.eqb] in E. unfold seq in E.
  destruct (loopSetup_returns d1 w1) as (r & w2 & t2 & E2 & _ & _).
  rewrite E2 in E. destruct r as [dev2 [e |]].
  - rewrite logFatal_run in E. discriminate E.
  - rewrite (tokenLoop_pure _ N) in E. injection E as <- _ _ <- <-.
    exists d1, f1, data1, w1, t1, t2. rewrite app_nil_r.
    split; [reflexivity |]. split; [exact E2 | reflexivity].
Qed.

End Calls.

(** ** The listing of the mount tables *)

(** C1: the mount tables are tried before the command line is parsed and
    before the arguments are counted.  For every command line, every parser
    and every world in which one of [/proc/self/mounts], [/proc/mounts],
    [/etc/mtab] can be read, [main] reads them in that order up to the first
    that can be read, prints its contents and ends the process with status 0;
    the world is left as it was and no mount primitive is called.  The
    number of positional arguments plays no part; with no argument and the
    first file readable ([before] empty) that file is printed. *)
Theorem listing_short_circuit {World : Type} `{Env World} (argv : list string)
    (w : World) (before after : list string) (p b : string) :
  mountTables = before ++ p :: after ->
  (forall q, In q before -> readable q w = false) ->
  ReadFile p w = (b, None) ->
  main argv w = (Exit 0, w, map EvReadFile before ++ [EvReadFile p; EvPrint b]) /\
  status (fst (fst (main argv w))) = 0 /\
  existsb isMountCall (snd (main argv w)) = false.
Proof.
  intros T U R.
  assert (E : main argv w
              = (Exit 0, w, map EvReadFile before ++ [EvReadFile p; EvPrint b])).
  { unfold main. unfold seq at 1. rewrite T, (listMounts_first _ _ _ _ _ U R).
    reflexivity. }
  rewrite E. cbn [fst snd status]. split; [reflexivity |]. split; [reflexivity |].
  rewrite existsb_app.
  rewrite (no_mount_existsb _ (reads_no_mount before)). reflexivity.
Qed.

Lemma listing_short_circuit_witness :
  mountTables = ["/proc/self/mounts"] ++ "/proc/mounts" :: ["/etc/mtab"] /\
  (forall q, In q ["/proc/self/mounts"] -> readable q Demo.booted = false) /\
  main ["disk.img"; "/mnt"] Demo.booted
  = (Exit 0, Demo.booted,
     [EvReadFile "/proc/self/mounts"; EvReadFile "/proc/mounts";
      EvPrint ("proc /proc proc rw 0 0" +:+ String "010" "")]).
Proof.
  assert (U : forall q, In q ["/proc/self/mounts"] -> readable q Demo.booted = false).
  { intros q [<- | []]. reflexivity. }
  split; [reflexivity |]. split; [exact U |].
  apply (listing_short_circuit ["disk.img"; "/mnt"] Demo.booted
           ["/proc/self/mounts"] ["/etc/mtab"] "/proc/mounts"
           ("proc /proc proc rw 0 0" +:+ String "010" "") eq_refl U eq_refl).
Defined.

(** ** The loop device *)

(** C2, as stated, fails: with the options [loop,loop] the program calls
    [loopSetup] twice, the second time on the device the first call
    returned, and mounts the device of the second call. *)
Lemma loop_twice_binds_twice :
  In "loop" (accumulate ["loop,loop"]) /\
  snd (main ["-o"; "loop,loop"; "disk.img"; "/mnt"] Demo.bare)
  = [EvReadFile "/proc/self/mounts"; EvReadFile "/proc/mounts"; EvReadFile "/etc/mtab";
     EvFindDevice; EvSetFile "/dev/loop0" "disk.img";
     EvFindDevice; EvSetFile "/dev/loop1" "/dev/loop0";
     EvTryMount "/dev/loop1" "/mnt" "" 0] /\
  loopSetupCalls (snd (main ["-o"; "loop,loop"; "disk.img"; "/mnt"] Demo.bare)) <> 1%nat.
Proof.
  split; [left; reflexivity |]. split; [vm_compute; reflexivity |].
  vm_compute. discriminate.
Qed.

(** C2, amended: on a run that passes the mount tables and the parser with
    two arguments or more and ["loop"] among the options, [loopSetup] is
    called at least once and at most once for each occurrence of ["loop"]
    (so exactly once when ["loop"] occurs once).  When a mount primitive is
    called, [loopSetup] has been called once for each occurrence of
    ["loop"], and the device given to the mount primitive is the one the
    last of these calls returned: that call was made on the device and in
    the world that the options before the last ["loop"] left. *)
Theorem loop_binds_per_token {World : Type} `{Env World} (argv : list string)
    (c : Flags) (d p : string) (rest l1 l2 : list string) (w : World) :
  (forall q, In q mountTables -> readable q w = false) ->
  flagParse argv = Parsed c ->
  Args c = d :: p :: rest ->
  accumulate (optionValues c) = l1 ++ "loop" :: l2 ->
  ~ In "loop" l2 ->
  (1 <= loopSetupCalls (snd (main argv w))
     <= occurrences "loop" (accumulate (optionValues c)))%nat /\
  (existsb isMountCall (snd (main argv w)) = true ->
   loopSetupCalls (snd (main argv w)) = occurrences "loop" (accumulate (optionValues c)) /\
   exists d1 f1 data1 w1 t1 dev w2 t2 flags data t3,
     tokenLoop l1 d 0 [] w = (Ret (d1, f1, data1), w1, t1) /\
     loopSetup d1 w1 = (Ret (dev, None), w2, t2) /\
     snd (main argv w)
     = map EvReadFile mountTables ++ (t1 ++ t2)
       ++ mountCall c dev p data flags :: t3 /\
     existsb isMountCall t3 = false).
Proof.
  intros U P A O N.
  assert (Occ : (1 <= occurrences "loop" (accumulate (optionValues c)))%nat).
  { rewrite O. unfold occurrences. rewrite List.filter_app, length_app.
    cbn [List.filter String.eqb Ascii.eqb Bool.eqb length]. lia. }
  destruct (tokenLoop (accumulate (optionValues c)) d 0 [] w)
    as [[[[[dev flags] data] | code |] w1'] t1'] eqn:L.
  - pose proof (tokenLoop_run _ _ _ _ _ _ _ _ L) as (M1 & _ & _ & C1).
    rewrite (main_dispatches _ _ _ _ _ _ _ _ _ _ _ U P A L).
    pose proof (dispatch_no_loopSetup c dev p data (convenienceFlags c flags) w1') as D0.
    destruct (dispatch_calls c dev p data (convenienceFlags c flags) w1')
      as (o & w2' & t3 & D & M3).
    rewrite D in D0 |- *. cbn [snd] in D0 |- *.
    assert (C : loopSetupCalls (map EvReadFile mountTables
                                ++ t1' ++ mountCall c dev p data (convenienceFlags c flags) :: t3)
                = occurrences "loop" (accumulate (optionValues c))).
    { rewrite !loopSetupCalls_app, reads_no_loopSetup, D0, C1. lia. }
    split; [rewrite C; lia |]. intros _. split; [exact C |].
    rewrite O in L.
    destruct (tokenLoop_last_loop _ _ _ _ _ _ _ _ _ _ _ N L)
      as (d1 & f1 & data1 & w1 & t1 & t2 & L1 & S2 & ->).
    exists d1, f1, data1, w1, t1, dev, w1', t2, (convenienceFlags c flags), data, t3.
    repeat split; try assumption. apply no_mount_existsb, M3.
  - pose proof (tokenLoop_run _ _ _ _ _ _ _ _ L) as (M1 & _ & C1).
    rewrite (main_loop_stops _ _ _ _ _ _ _ _ _ U P A L). cbn [snd].
    split.
    + rewrite loopSetupCalls_app, reads_no_loopSetup. lia.
    + rewrite existsb_app, (no_mount_existsb _ (reads_no_mount _)),
        (no_mount_existsb _ M1). discriminate.
  - destruct (tokenLoop_run _ _ _ _ _ _ _ _ L) as (_ & []).
Qed.

Lemma bare_no_tables (q : string) :
  In q mountTables -> readable q Demo.bare = false.
Proof. intros [<- | [<- | [<- | []]]]; reflexivity. Qed.

Lemma blind_no_tables (q : string) :
  In q mountTables -> readable q Demo.blind = false.
Proof. intros [<- | [<- | [<- | []]]]; reflexivity. Qed.

Lemma loop_binds_per_token_witness :
  flagParse ["-r"; "-o"; "loop"; "backing.img"; "/mnt"]
  = Parsed (Demo.flagsOf ["-r"; "-o"; "loop"; "backing.img"; "/mnt"]) /\
  accumulate (optionValues (Demo.flagsOf ["-r"; "-o"; "loop"; "backing.img"; "/mnt"]))
  = [] ++ "loop" :: [] /\
  (1 <= loopSetupCalls (snd (main ["-r"; "-o"; "loop"; "backing.img"; "/mnt"] Demo.bare))
     <= 1)%nat /\
  snd (main ["-r"; "-o"; "loop"; "backing.img"; "/mnt"] Demo.bare)
  = [EvReadFile "/proc/self/mounts"; EvReadFile "/proc/mounts"; EvReadFile "/etc/mtab";
     EvFindDevice; EvSetFile "/dev/loop0" "backing.img";
     EvTryMount "/dev/loop0" "/mnt" "" MS_RDONLY].
Proof.
  split; [reflexivity |]. split; [reflexivity |].
  split; [| vm_compute; reflexivity].
  exact (proj1 (loop_binds_per_token
                  ["-r"; "-o"; "loop"; "backing.img"; "/mnt"]
                  (Demo.flagsOf ["-r"; "-o"; "loop"; "backing.img"; "/mnt"])
                  "backing.img" "/mnt" [] [] [] Demo.bare
                  bare_no_tables eq_refl eq_refl eq_refl (fun I => I))).
Defined.

(** ** The flags of the options *)

(** C3: without ["loop"] among the options, the loop over the options calls
    nothing, keeps the device, and returns as flags the bitwise or of the
    entries of [opts] for the options that are keys of [opts].  The flags
    are the same for the options in any other order (a permutation), and the
    same for any options with the same set of tokens: a known token given
    again adds nothing. *)
Theorem flags_or_of_table {World : Type} `{Env World} (options : list string)
    (dev : string) (w : World) :
  ~ In "loop" options ->
  tokenLoop options dev 0 [] w
  = (Ret (dev, tableFlags options, unknownTokens options), w, []) /\
  (forall options', Permutation options options' ->
     tokenLoop options' dev 0 [] w
     = (Ret (dev, tableFlags options, unknownTokens options'), w, [])) /\
  (forall options', ~ In "loop" options' ->
     (forall token, In token options <-> In token options') ->
     tokenLoop options' dev 0 [] w
     = (Ret (dev, tableFlags options, unknownTokens options'), w, [])) /\
  (forall token, In token options -> tableFlags (token :: options) = tableFlags options).
Proof.
  intros N.
  assert (Same : forall options', ~ In "loop" options' ->
            (forall token, In token options <-> In token options') ->
            tokenLoop options' dev 0 [] w
            = (Ret (dev, tableFlags options, unknownTokens options'), w, [])).
  { intros options' N' S. rewrite (tokenLoop_pure _ N'), Z.lor_0_l.
    rewrite <- (tokenFlags_table _ N), (tokenFlags_same_tokens _ _ S). reflexivity. }
  split; [apply Same; [exact N | tauto] |]. split; [| split; [exact Same |]].
  - intros options' P. apply Same.
    + intros I. apply N. apply Permutation_sym in P.
      exact (Permutation_in _ P I).
    + intros token. split; intros I.
      * exact (Permutation_in _ P I).
      * apply Permutation_sym in P. exact (Permutation_in _ P I).
  - intros token I.
    assert (N' : ~ In "loop" (token :: options)).
    { intros [-> | I']; [exact (N I) | exact (N I')]. }
    rewrite <- (tokenFlags_table _ N), <- (tokenFlags_table _ N').
    apply tokenFlags_same_tokens. intros token'. split; intros I'.
    + destruct I' as [<- | I']; assumption.
    + right. exact I'.
Qed.

Lemma flags_or_of_table_witness :
  ~ In "loop" ["noexec"; "uid=3"; "ro"; "noexec"] /\
  tokenLoop ["noexec"; "uid=3"; "ro"; "noexec"] "/dev/sda1" 0 [] Demo.bare
  = (Ret ("/dev/sda1", 9, ["uid=3"]), Demo.bare, []).
Proof.
  assert (N : ~ In "loop" ["noexec"; "uid=3"; "ro"; "noexec"]).
  { intros [E | [E | [E | [E | []]]]]; discriminate E. }
  split; [exact N |].
  exact (proj1 (flags_or_of_table ["noexec"; "uid=3"; "ro"; "noexec"] "/dev/sda1"
                  Demo.bare N)).
Defined.

(** ** The data of the mount call *)

(** C4: when the loop over the options returns, its data are the options
    that are neither ["loop"] nor keys of [opts], in the order they were
    given, and its flags are those of the other options: the unknown tokens
    add no bit.  The mount primitive is then called with these tokens joined
    by commas. *)
Theorem unknown_tokens_to_data {World : Type} `{Env World} (argv : list string)
    (c : Flags) (d p : string) (rest : list string) (w : World) (dev : string)
    (flags : Z) (data : list string) (w1 : World) (t1 : list event) :
  (forall q, In q mountTables -> readable q w = false) ->
  flagParse argv = Parsed c ->
  Args c = d :: p :: rest ->
  tokenLoop (accumulate (optionValues c)) d 0 [] w = (Ret (dev, flags, data), w1, t1) ->
  data = List.filter unknown (accumulate (optionValues c)) /\
  flags = tokenFlags (List.filter (fun token => negb (unknown token))
                                  (accumulate (optionValues c))) /\
  exists o w2 t2,
    main argv w
    = (o, w2,
       map EvReadFile mountTables ++ t1
       ++ (if String.eqb (fsType c) ""
           then EvTryMount dev p
                  (Strings.Join (List.filter unknown (accumulate (optionValues c))) ",")
                  (convenienceFlags c flags)
           else EvMount dev p (fsType c)
                  (Strings.Join (List.filter unknown (accumulate (optionValues c))) ",")
                  (convenienceFlags c flags)) :: t2).
Proof.
  intros U P A L.
  pose proof (tokenLoop_run _ _ _ _ _ _ _ _ L) as (_ & F & D & _).
  rewrite Z.lor_0_l in F. cbn [app] in D. fold (unknownTokens (accumulate (optionValues c))).
  split; [exact D |]. split; [rewrite F; apply tokenFlags_known |].
  rewrite (main_dispatches _ _ _ _ _ _ _ _ _ _ _ U P A L).
  destruct (dispatch_calls c dev p data (convenienceFlags c flags) w1)
    as (o & w2 & t2 & E & _).
  rewrite E. exists o, w2, t2. unfold mountCall. rewrite D. reflexivity.
Qed.

Lemma unknown_tokens_to_data_witness :
  flagParse ["-o"; "ro,uid=3"; "-o"; "loop,noexec,foo"; "-t"; "ext4"; "disk.img"; "/mnt"]
  = Parsed (Demo.flagsOf
              ["-o"; "ro,uid=3"; "-o"; "loop,noexec,foo"; "-t"; "ext4"; "disk.img"; "/mnt"]) /\
  List.filter unknown ["ro"; "uid=3"; "loop"; "noexec"; "foo"] = ["uid=3"; "foo"] /\
  exists o w2 t2,
    main ["-o"; "ro,uid=3"; "-o"; "loop,noexec,foo"; "-t"; "ext4"; "disk.img"; "/mnt"]
         Demo.bare
    = (o, w2,
       map EvReadFile mountTables
       ++ [EvFindDevice; EvSetFile "/dev/loop0" "disk.img"]
       ++ EvMount "/dev/loop0" "/mnt" "ext4" "uid=3,foo" 9 :: t2).
Proof.
  split; [reflexivity |]. split; [reflexivity |].
  exact (proj2 (proj2 (unknown_tokens_to_data
    ["-o"; "ro,uid=3"; "-o"; "loop,noexec,foo"; "-t"; "ext4"; "disk.img"; "/mnt"]
    (Demo.flagsOf
       ["-o"; "ro,uid=3"; "-o"; "loop,noexec,foo"; "-t"; "ext4"; "disk.img"; "/mnt"])
    "disk.img" "/mnt" [] Demo.bare "/dev/loop0" 9 ["uid=3"; "foo"]
    {| Demo.files := Demo.files Demo.bare; Demo.freeLoops := ["/dev/loop1"];
       Demo.bound := [("/dev/loop0", "disk.img")];
       Demo.kernelTypes := Demo.kernelTypes Demo.bare |}
    [EvFindDevice; EvSetFile "/dev/loop0" "disk.img"]
    bare_no_tables eq_refl eq_refl eq_refl))).
Defined.

(** ** The flags of the command line *)

Lemma lor_if (b : bool) (acc K : Z) :
  (if b then Z.lor acc K else acc) = Z.lor acc (if b then K else 0).
Proof. destruct b; [reflexivity | rewrite Z.lor_0_r; reflexivity]. Qed.

(** The flags after lines 148 to 168, in one expression. *)
Lemma convenienceFlags_closed (c : Flags) (flags : Z) :
  convenienceFlags c flags
  = Z.lor flags (Z.lor (ownBits c) (if anyRecursive c then Z.lor MS_BIND MS_REC else 0)).
Proof.
  unfold convenienceFlags, ownBits, anyRecursive. cbv zeta.
  rewrite !lor_if, !Z.lor_assoc. reflexivity.
Qed.

(** [includes x m]: all the bits of [m] are set in [x]. *)
Lemma includes_here (x m : Z) : Z.land (Z.lor x m) m = m.
Proof.
  apply Z.bits_inj'. intros i _. rewrite Z.land_spec, Z.lor_spec.
  destruct (Z.testbit x i), (Z.testbit m i); reflexivity.
Qed.

Lemma includes_left (x y m : Z) : Z.land x m = m -> Z.land (Z.lor x y) m = m.
Proof.
  intros I. apply Z.bits_inj'. intros i _.
  apply (f_equal (fun z => Z.testbit z i)) in I. rewrite Z.land_spec in I.
  rewrite Z.land_spec, Z.lor_spec.
  destruct (Z.testbit x i), (Z.testbit y i), (Z.testbit m i);
    try reflexivity; discriminate I.
Qed.

Lemma includes_right (x y m : Z) : Z.land y m = m -> Z.land (Z.lor x y) m = m.
Proof. intros I. rewrite Z.lor_comm. apply includes_left, I. Qed.

(** *** The range of [uintptr] *)

(** The bitwise or of two values of a [uintptr] is one: [flags |= f] never
    wraps around. *)
Lemma lor_uintptr (x y : Z) : uintptr x -> uintptr y -> uintptr (Z.lor x y).
Proof.
  unfold uintptr. intros X Y.
  assert (E : Z.lor x y = Z.lor x y mod 2 ^ 64).
  { rewrite <- !Z.land_ones by lia. rewrite Z.land_lor_distr_l.
    rewrite !Z.land_ones by lia. rewrite !Z.mod_small by lia. reflexivity. }
  rewrite E. apply Z.mod_pos_bound. lia.
Qed.

Lemma if_uintptr (b : bool) (K : Z) : uintptr K -> uintptr (if b then K else 0).
Proof. intros R. destruct b; [exact R | unfold uintptr; lia]. Qed.

Lemma tokenFlags_uintptr {World : Type} `{Env World} (options : list string) :
  (forall token f, opts !! token = Some f -> uintptr f) ->
  uintptr (tokenFlags options).
Proof.
  intros T. unfold tokenFlags.
  induction options as [| option rest IH]; cbn [omap list_omap fold_right].
  - unfold uintptr. lia.
  - unfold entry at 1. destruct (String.eqb option "loop"); [exact IH |].
    destruct (opts !! option) as [f |] eqn:O; [| exact IH].
    cbn [fold_right]. apply lor_uintptr; [exact (T _ _ O) | exact IH].
Qed.

(** With the entries of [opts] in the range of [uintptr], so are the flags
    given to the mount primitive. *)
Lemma convenienceFlags_uintptr (c : Flags) (flags : Z) :
  uintptr flags -> uintptr (convenienceFlags c flags).
Proof.
  intros R. rewrite convenienceFlags_closed. unfold ownBits.
  repeat (first [ exact R
                | apply lor_uintptr
                | apply if_uintptr
                | (unfold uintptr; vm_compute; split; [discriminate | reflexivity]) ]).
Qed.

(** C5: the flags of the command line are or-ed into the flags the loop over
    the options returned, in the order of the program.  The result is the
    flags of the loop, the bits each flag asks for by itself, and, when at
    least one of [-rbind], [-make-rshared], [-make-rslave],
    [-make-rprivate], [-make-runbindable] is set, [MS_BIND] and [MS_REC]:
    one term, whichever and however many of them are set.  With any of them
    the result includes [MS_BIND] and [MS_REC], and with a recursive
    propagation flag its own bit; or-ing the flags of the command line a
    second time changes nothing.  This is the value the mount primitive is
    called with. *)
Theorem recursive_flags_once {World : Type} `{Env World} (c : Flags) (flags : Z) :
  convenienceFlags c flags
  = Z.lor flags (Z.lor (ownBits c) (if anyRecursive c then Z.lor MS_BIND MS_REC else 0)) /\
  (anyRecursive c = true ->
   Z.land (convenienceFlags c flags) (Z.lor MS_BIND MS_REC) = Z.lor MS_BIND MS_REC /\
   Z.land (convenienceFlags c flags) MS_BIND = MS_BIND /\
   Z.land (convenienceFlags c flags) MS_REC = MS_REC) /\
  (makeRShared c = true -> Z.land (convenienceFlags c flags) MS_SHARED = MS_SHARED) /\
  (makeRSlave c = true -> Z.land (convenienceFlags c flags) MS_SLAVE = MS_SLAVE) /\
  (makeRPrivate c = true -> Z.land (convenienceFlags c flags) MS_PRIVATE = MS_PRIVATE) /\
  (makeRUnbindable c = true ->
   Z.land (convenienceFlags c flags) MS_UNBINDABLE = MS_UNBINDABLE) /\
  convenienceFlags c (convenienceFlags c flags) = convenienceFlags c flags /\
  (forall argv d p rest (w : World) dev data w1 t1,
     (forall q, In q mountTables -> readable q w = false) ->
     flagParse argv = Parsed c ->
     Args c = d :: p :: rest ->
     tokenLoop (accumulate (optionValues c)) d 0 [] w = (Ret (dev, flags, data), w1, t1) ->
     exists o w2 t2,
       main argv w
       = (o, w2,
          map EvReadFile mountTables ++ t1
          ++ mountCall c dev p data (convenienceFlags c flags) :: t2)).
Proof.
  split; [apply convenienceFlags_closed |].
  split.
  { intros R. rewrite convenienceFlags_closed, R.
    split; [apply includes_right, includes_here |].
    split; apply includes_right, includes_right.
    - rewrite Z.lor_comm. apply includes_here.
    - apply includes_here. }
  assert (Own : forall b b' K rest',
            b' = true ->
            Z.land (Z.lor (if b || b' then K else 0) rest') K = K).
  { intros b b' K rest' ->. rewrite orb_true_r, Z.lor_comm. apply includes_here. }
  split; [| split; [| split; [| split; [| split]]]].
  - intros R. rewrite convenienceFlags_closed. unfold ownBits.
    apply includes_right, includes_left, includes_right, includes_right.
    apply Own, R.
  - intros R. rewrite convenienceFlags_closed. unfold ownBits.
    apply includes_right, includes_left, includes_right, includes_right, includes_right.
    apply Own, R.
  - intros R. rewrite convenienceFlags_closed. unfold ownBits.
    apply includes_right, includes_left, includes_right, includes_right, includes_right,
      includes_right.
    apply Own, R.
  - intros R. rewrite convenienceFlags_closed. unfold ownBits.
    apply includes_right, includes_left, includes_right, includes_right, includes_right,
      includes_right.
    rewrite R, orb_true_r. apply includes_here.
  - rewrite (convenienceFlags_closed c (convenienceFlags c flags)).
    rewrite convenienceFlags_closed, <- Z.lor_assoc, Z.lor_diag. reflexivity.
  - intros argv d p rest w dev data w1 t1 U P A L.
    rewrite (main_dispatches _ _ _ _ _ _ _ _ _ _ _ U P A L).
    destruct (dispatch_calls c dev p data (convenienceFlags c flags) w1)
      as (o & w2 & t2 & E & _).
    rewrite E. exists o, w2, t2. reflexivity.
Qed.

Lemma recursive_flags_once_witness :
  anyRecursive (Demo.flagsOf ["-rbind"; "-make-rshared"; "/srv"; "/mnt"]) = true /\
  convenienceFlags (Demo.flagsOf ["-rbind"; "-make-rshared"; "/srv"; "/mnt"]) 0 = 0x105000 /\
  Z.land (convenienceFlags (Demo.flagsOf ["-rbind"; "-make-rshared"; "/srv"; "/mnt"]) 0)
         (Z.lor MS_BIND MS_REC)
  = Z.lor MS_BIND MS_REC.
Proof.
  split; [reflexivity |]. split; [reflexivity |].
  exact (proj1 (proj1 (proj2 (recursive_flags_once (World := Demo.world)
    (Demo.flagsOf ["-rbind"; "-make-rshared"; "/srv"; "/mnt"]) 0)) eq_refl)).
Defined.

(** ** The failure of the mount with a type *)

Lemma existsb_eqb_In (x : string) (l : list string) :
  existsb (fun y => String.eqb y x) l = true <-> In x l.
Proof.
  rewrite existsb_exists. split.
  - intros (y & I & E). apply String.eqb_eq in E. subst y. exact I.
  - intros I. exists x. split; [exact I | apply String.eqb_refl].
Qed.

(** The run of [main] in which [mount.Mount] fails. *)
Lemma main_mount_fails {World : Type} `{Env World} (argv : list string) (c : Flags)
    (d p : string) (rest : list string) (w : World) (dev : string) (flags : Z)
    (data : list string) (w1 : World) (t1 : list event) (e : error) (w2 : World) :
  (forall q, In q mountTables -> readable q w = false) ->
  flagParse argv = Parsed c ->
  Args c = d :: p :: rest ->
  fsType c <> "" ->
  tokenLoop (accumulate (optionValues c)) d 0 [] w = (Ret (dev, flags, data), w1, t1) ->
  Mount dev p (fsType c) (Strings.Join data ",") (convenienceFlags c flags) w1
  = (Some e, w2) ->
  main argv w
  = (Exit 1, w2,
     map EvReadFile mountTables ++ t1
     ++ [EvMount dev p (fsType c) (Strings.Join data ",") (convenienceFlags c flags);
         EvLog e; EvReadFile "/proc/filesystems"]
     ++ hintEvents (fsType c) w2).
Proof.
  intros U P A T L F.
  rewrite (main_dispatches _ _ _ _ _ _ _ _ _ _ _ U P A L).
  rewrite (dispatch_explicit _ _ _ _ _ _ T), F. reflexivity.
Qed.

(** C6: with [-t TYPE], when [mount.Mount] fails, the error is logged, the
    listing of the supported filesystems is read, and the process ends with
    status 1.  When the listing can be read the hint, which names the type
    and lists the last fields of the listing, is logged exactly when the
    type is not among them; the status is 1 with and without the hint. *)
Theorem explicit_type_failure {World : Type} `{Env World} (argv : list string)
    (c : Flags) (d p : string) (rest : list string) (w : World) (dev : string)
    (flags : Z) (data : list string) (w1 : World) (t1 : list event) (e : error)
    (w2 : World) :
  (forall q, In q mountTables -> readable q w = false) ->
  flagParse argv = Parsed c ->
  Args c = d :: p :: rest ->
  fsType c <> "" ->
  tokenLoop (accumulate (optionValues c)) d 0 [] w = (Ret (dev, flags, data), w1, t1) ->
  Mount dev p (fsType c) (Strings.Join data ",") (convenienceFlags c flags) w1
  = (Some e, w2) ->
  exists hints,
    main argv w
    = (Exit 1, w2,
       map EvReadFile mountTables ++ t1
       ++ [EvMount dev p (fsType c) (Strings.Join data ",") (convenienceFlags c flags);
           EvLog e; EvReadFile "/proc/filesystems"]
       ++ hints) /\
    status (fst (fst (main argv w))) <> 0 /\
    (forall fs, ReadFile "/proc/filesystems" w2 = (fs, None) ->
       (~ In (fsType c) (lastFields fs) ->
        hints = [EvLog ("Hint: unknown filesystem " +:+ fsType c +:+ ". Known are: "
                        +:+ fmtSlice (lastFields fs))]) /\
       (In (fsType c) (lastFields fs) -> hints = [])).
Proof.
  intros U P A T L F. exists (hintEvents (fsType c) w2).
  rewrite (main_mount_fails _ _ _ _ _ _ _ _ _ _ _ _ _ U P A T L F).
  split; [reflexivity |]. split; [discriminate |].
  intros fs R. unfold hintEvents. rewrite R.
  destruct (existsb (fun x => String.eqb x (fsType c)) (lastFields fs)) eqn:K.
  - apply existsb_eqb_In in K. split; [intros N; destruct (N K) | reflexivity].
  - split; [reflexivity |]. intros I. apply existsb_eqb_In in I.
    rewrite I in K. discriminate K.
Qed.

Lemma explicit_type_failure_witness :
  fsType (Demo.flagsOf ["-t"; "ext9"; "/dev/sda1"; "/mnt"]) <> "" /\
  ~ In "ext9" (lastFields Demo.filesystems) /\
  exists hints,
    main ["-t"; "ext9"; "/dev/sda1"; "/mnt"] Demo.bare
    = (Exit 1, Demo.bare,
       map EvReadFile mountTables ++ []
       ++ [EvMount "/dev/sda1" "/mnt" "ext9" "" 0; EvLog "no such device";
           EvReadFile "/proc/filesystems"]
       ++ hints) /\
    hints = [EvLog "Hint: unknown filesystem ext9. Known are: [sysfs proc ext4 vfat]"].
Proof.
  assert (T : fsType (Demo.flagsOf ["-t"; "ext9"; "/dev/sda1"; "/mnt"]) <> "")
    by discriminate.
  assert (N : ~ In "ext9" (lastFields Demo.filesystems)).
  { intros [E | [E | [E | [E | []]]]]; discriminate E. }
  split; [exact T |]. split; [exact N |].
  destruct (explicit_type_failure ["-t"; "ext9"; "/dev/sda1"; "/mnt"]
              (Demo.flagsOf ["-t"; "ext9"; "/dev/sda1"; "/mnt"])
              "/dev/sda1" "/mnt" [] Demo.bare "/dev/sda1" 0 [] Demo.bare []
              "no such device" Demo.bare
              bare_no_tables eq_refl eq_refl T eq_refl eq_refl)
    as (hints & E & _ & Hh).
  exists hints. split; [exact E |].
  exact (proj1 (Hh Demo.filesystems eq_refl) N).
Defined.

(** ** The prober *)

(** C7: when the listing is read, [getSupportedFilesystem] splits it at the
    newlines, splits each line into its fields, and returns the last fields
    of the lines that have one, in the order of the lines, with no error; it
    reports the type as known exactly when a line has it as last field. *)
Theorem prober_last_fields {World : Type} `{Env World} (originFS fs : string)
    (w : World) :
  ReadFile "/proc/filesystems" w = (fs, None) ->
  exists known,
    getSupportedFilesystem originFS w
    = (Ret (omap (fun line => last (Strings.Fields line)) (Strings.Split fs "010"),
            known, None),
       w, [EvReadFile "/proc/filesystems"]) /\
    (known = true <->
     exists line, In line (Strings.Split fs "010") /\
                  last (Strings.Fields line) = Some originFS).
Proof.
  intros R. exists (existsb (fun x => String.eqb x originFS) (lastFields fs)).
  split; [exact (getSupportedFilesystem_read _ _ _ R) |].
  rewrite existsb_eqb_In. unfold lastFields. rewrite <- list_elem_of_In, list_elem_of_omap.
  split.
  - intros (line & I & L). exists line. rewrite <- list_elem_of_In. split; assumption.
  - intros (line & I & L). exists line. rewrite list_elem_of_In. split; assumption.
Qed.

Lemma prober_last_fields_witness :
  exists known,
    getSupportedFilesystem "proc" Demo.bare
    = (Ret (["sysfs"; "proc"; "ext4"; "vfat"], known, None),
       Demo.bare, [EvReadFile "/proc/filesystems"]) /\
    (known = true <->
     exists line, In line (Strings.Split Demo.filesystems "010") /\
                  last (Strings.Fields line) = Some "proc").
Proof.
  exact (prober_last_fields "proc" Demo.filesystems Demo.bare eq_refl).
Defined.

(** C8: when the listing cannot be read, [informIfUnknownFS] returns after
    the read, having written nothing and changed nothing; and when
    [mount.Mount] has failed in such a world, [main] logs the error of the
    mount, tries the read, logs nothing more and ends with status 1. *)
Theorem probe_failure_swallowed {World : Type} `{Env World} (argv : list string)
    (c : Flags) (d p : string) (rest : list string) (w : World) (dev : string)
    (flags : Z) (data : list string) (w1 : World) (t1 : list event) (e : error)
    (w2 : World) (fs : string) (e' : error) :
  (forall q, In q mountTables -> readable q w = false) ->
  flagParse argv = Parsed c ->
  Args c = d :: p :: rest ->
  fsType c <> "" ->
  tokenLoop (accumulate (optionValues c)) d 0 [] w = (Ret (dev, flags, data), w1, t1) ->
  Mount dev p (fsType c) (Strings.Join data ",") (convenienceFlags c flags) w1
  = (Some e, w2) ->
  ReadFile "/proc/filesystems" w2 = (fs, Some e') ->
  (forall originFS,
     informIfUnknownFS originFS w2 = (Ret tt, w2, [EvReadFile "/proc/filesystems"])) /\
  main argv w
  = (Exit 1, w2,
     map EvReadFile mountTables ++ t1
     ++ [EvMount dev p (fsType c) (Strings.Join data ",") (convenienceFlags c flags);
         EvLog e; EvReadFile "/proc/filesystems"]).
Proof.
  intros U P A T L F R.
  assert (Hn : forall originFS, hintEvents originFS w2 = []).
  { intros originFS. unfold hintEvents. rewrite R. reflexivity. }
  split.
  - intros originFS. rewrite informIfUnknownFS_run, Hn. reflexivity.
  - rewrite (main_mount_fails _ _ _ _ _ _ _ _ _ _ _ _ _ U P A T L F), Hn, app_nil_r.
    reflexivity.
Qed.

Lemma probe_failure_swallowed_witness :
  snd (ReadFile "/proc/filesystems" Demo.blind) <> None /\
  informIfUnknownFS "ext9" Demo.blind
  = (Ret tt, Demo.blind, [EvReadFile "/proc/filesystems"]) /\
  main ["-t"; "ext9"; "/dev/sda1"; "/mnt"] Demo.blind
  = (Exit 1, Demo.blind,
     [EvReadFile "/proc/self/mounts"; EvReadFile "/proc/mounts"; EvReadFile "/etc/mtab";
      EvMount "/dev/sda1" "/mnt" "ext9" "" 0; EvLog "no such device";
      EvReadFile "/proc/filesystems"]).
Proof.
  split; [discriminate |].
  destruct (probe_failure_swallowed ["-t"; "ext9"; "/dev/sda1"; "/mnt"]
              (Demo.flagsOf ["-t"; "ext9"; "/dev/sda1"; "/mnt"])
              "/dev/sda1" "/mnt" [] Demo.blind "/dev/sda1" 0 [] Demo.blind []
              "no such device" Demo.blind ""
              "open /proc/filesystems: no such file or directory"
              blind_no_tables eq_refl eq_refl ltac:(discriminate) eq_refl eq_refl eq_refl)
    as [I M].
  split; [exact (I "ext9") | exact M].
Defined.

(** C9: [getSupportedFilesystem] never panics: whatever the listing holds,
    it returns after the read.  A line without field (a blank line, and the
    empty piece after a final newline) is passed over: it leaves [known] and
    the list as they are.  When the read succeeds the error returned is
    [nil], the list has one entry for each line that has a field, and no
    entry is the empty string. *)
Theorem prober_skips_blank_lines {World : Type} `{Env World} (originFS : string)
    (w : World) :
  (exists l known err,
     getSupportedFilesystem originFS w
     = (Ret (l, known, err), w, [EvReadFile "/proc/filesystems"]) /\
     (forall fs, ReadFile "/proc/filesystems" w = (fs, None) ->
        err = None /\
        l = lastFields fs /\
        length l
        = length (List.filter (fun line => negb (Nat.eqb (length (Strings.Fields line)) 0))
                              (Strings.Split fs "010")) /\
        Forall (fun x => x <> "") l)) /\
  (forall line rest known returnValue,
     Strings.Fields line = [] ->
     scanLines originFS (line :: rest) known returnValue w
     = scanLines originFS rest known returnValue w) /\
  Strings.Fields "" = [].
Proof.
  split; [| split; [| reflexivity]].
  - destruct (ReadFile "/proc/filesystems" w) as [fs [e |]] eqn:R.
    + exists [], false, (Some e).
      split; [exact (getSupportedFilesystem_unread _ _ _ _ R) |].
      intros fs' E. discriminate E.
    + exists (lastFields fs),
        (existsb (fun x => String.eqb x originFS) (lastFields fs)), None.
      split; [exact (getSupportedFilesystem_read _ _ _ R) |].
      intros fs' E. injection E as <-.
      split; [reflexivity |]. split; [reflexivity |].
      unfold lastFields. generalize (Strings.Split fs "010"). intros lines.
      split.
      * induction lines as [| line lines IH]; [reflexivity |].
        cbn [omap list_omap List.filter]. unfold lastField at 1.
        destruct (Strings.Fields line) as [| y n] eqn:F.
        -- exact IH.
        -- destruct (last (y :: n)) eqn:L; [| apply last_None in L; discriminate L].
           cbn [length Nat.eqb negb]. rewrite IH. reflexivity.
      * induction lines as [| line lines IH]; [constructor |].
        cbn [omap list_omap]. destruct (lastField line) as [x |] eqn:L; [| exact IH].
        constructor; [| exact IH].
        unfold lastField in L. apply last_Some_elem_of in L.
        pose proof (Fields_nonempty line) as NE.
        rewrite List.Forall_forall in NE. apply NE. apply list_elem_of_In. exact L.
  - intros line rest known returnValue F. cbn [scanLines]. rewrite F. reflexivity.
Qed.

Lemma prober_skips_blank_lines_witness :
  exists l known err,
    getSupportedFilesystem "ext4" Demo.bare
    = (Ret (l, known, err), Demo.bare, [EvReadFile "/proc/filesystems"]) /\
    err = None /\ l = ["sysfs"; "proc"; "ext4"; "vfat"] /\
    length (Strings.Split Demo.filesystems "010") = 6%nat.
Proof.
  destruct (proj1 (prober_skips_blank_lines "ext4" Demo.bare))
    as (l & known & err & E & R).
  exists l, known, err. split; [exact E |].
  destruct (R Demo.filesystems eq_refl) as (Er & El & _).
  split; [exact Er |]. split; [exact El | reflexivity].
Defined.

(** ** The positional arguments *)

(** C10: with two positional arguments or more, the loop over the options
    starts from the first argument as device, the mount primitive is called
    with the second as path, and the arguments after the second play no
    part: the program runs as with the first two alone, for the same flags
    and options. *)
Theorem extra_arguments_ignored {World : Type} `{Env World} (c : Flags)
    (d p : string) (rest : list string) (w : World) :
  Args c = d :: p :: rest ->
  mountWith c w
  = seq (tokenLoop (accumulate (optionValues c)) d 0 [])
        (fun '(dev, flags, data) => dispatch c dev p data (convenienceFlags c flags)) w /\
  mountWith c w = mountWith (withArgs c [d; p]) w /\
  (forall argv argv',
     flagParse argv = Parsed c ->
     flagParse argv' = Parsed (withArgs c [d; p]) ->
     main argv w = main argv' w).
Proof.
  intros A.
  assert (E : mountWith c w = mountWith (withArgs c [d; p]) w).
  { rewrite (mountWith_args c d p rest w A).
    rewrite (mountWith_args (withArgs c [d; p]) d p [] w eq_refl). reflexivity. }
  split; [exact (mountWith_args c d p rest w A) |]. split; [exact E |].
  intros argv argv' P P'. unfold main, seq, flagParse_. rewrite P, P'.
  destruct (listMounts mountTables w) as [[[[] | code |] w1] t1]; try reflexivity.
  rewrite (mountWith_args c d p rest w1 A).
  rewrite (mountWith_args (withArgs c [d; p]) d p [] w1 eq_refl). reflexivity.
Qed.

Lemma extra_arguments_ignored_witness :
  Args (Demo.flagsOf ["-r"; "-o"; "loop,uid=3"; "disk.img"; "/mnt"; "-t"; "ext4"])
  = "disk.img" :: "/mnt" :: ["-t"; "ext4"] /\
  main ["-r"; "-o"; "loop,uid=3"; "disk.img"; "/mnt"; "-t"; "ext4"] Demo.bare
  = main ["-r"; "-o"; "loop,uid=3"; "disk.img"; "/mnt"] Demo.bare /\
  snd (main ["-r"; "-o"; "loop,uid=3"; "disk.img"; "/mnt"; "-t"; "ext4"] Demo.bare)
  = [EvReadFile "/proc/self/mounts"; EvReadFile "/proc/mounts"; EvReadFile "/etc/mtab";
     EvFindDevice; EvSetFile "/dev/loop0" "disk.img";
     EvTryMount "/dev/loop0" "/mnt" "uid=3" MS_RDONLY].
Proof.
  split; [reflexivity |]. split; [| vm_compute; reflexivity].
  exact (proj2 (proj2 (extra_arguments_ignored
    (Demo.flagsOf ["-r"; "-o"; "loop,uid=3"; "disk.img"; "/mnt"; "-t"; "ext4"])
    "disk.img" "/mnt" ["-t"; "ext4"] Demo.bare eq_refl))
    ["-r"; "-o"; "loop,uid=3"; "disk.img"; "/mnt"; "-t"; "ext4"]
    ["-r"; "-o"; "loop,uid=3"; "disk.img"; "/mnt"] eq_refl eq_refl).
Defined.

(** * Further properties of the program *)

(** ** Splitting and joining *)

Lemma Join_cons (e : string) (rest : list string) (sep : string) :
  rest <> [] -> Strings.Join (e :: rest) sep = e +:+ sep +:+ Strings.Join rest sep.
Proof. destruct rest; [congruence | reflexivity]. Qed.

Lemma append_assoc (a b c : string) : (a +:+ b) +:+ c = a +:+ (b +:+ c).
Proof.
  induction a as [| x a IH]; [reflexivity |].
  change (String x ((a +:+ b) +:+ c) = String x (a +:+ b +:+ c)).
  rewrite IH. reflexivity.
Qed.

Lemma Join_app (l1 l2 : list string) (sep : string) :
  l1 <> [] -> l2 <> [] ->
  Strings.Join (l1 ++ l2) sep = Strings.Join l1 sep +:+ sep +:+ Strings.Join l2 sep.
Proof.
  intros N1 N2. induction l1 as [| e rest IH]; [congruence |].
  destruct rest as [| e' rest].
  - cbn [app]. rewrite (Join_cons _ _ _ N2). reflexivity.
  - change ((e :: e' :: rest) ++ l2) with (e :: ((e' :: rest) ++ l2)).
    rewrite (Join_cons e ((e' :: rest) ++ l2)) by discriminate.
    rewrite IH by discriminate.
    rewrite (Join_cons e (e' :: rest)) by discriminate.
    rewrite !append_assoc. reflexivity.
Qed.

(** Joining the pieces of a string with the separator gives the string
    back. *)
Lemma Join_Split (s : string) (sep : ascii) :
  Strings.Join (Strings.Split s sep) (String sep EmptyString) = s.
Proof.
  induction s as [| c s IH]; [reflexivity |].
  cbn [Strings.Split]. destruct (Ascii.eqb c sep) eqn:E.
  - apply Ascii.eqb_eq in E. subst c.
    rewrite Join_cons by apply Split_nonempty. rewrite IH. reflexivity.
  - destruct (Strings.Split s sep) as [| piece pieces] eqn:P.
    + destruct (Split_nonempty s sep P).
    + destruct pieces as [| piece' pieces].
      * cbn in IH |- *. rewrite IH. reflexivity.
      * rewrite Join_cons in IH |- * by discriminate. cbn. rewrite <- IH. reflexivity.
Qed.

Lemma Split_length (s : string) (sep : ascii) :
  length (Strings.Split s sep)
  = S (length (List.filter (Ascii.eqb sep) (list_ascii_of_string s))).
Proof.
  induction s as [| c s IH]; [reflexivity |].
  cbn [Strings.Split list_ascii_of_string List.filter].
  rewrite (Ascii.eqb_sym sep c). destruct (Ascii.eqb c sep).
  - cbn [length]. rewrite IH. reflexivity.
  - destruct (Strings.Split s sep) as [| piece pieces]; [discriminate IH | exact IH].
Qed.

Lemma Split_pieces (s : string) (sep : ascii) :
  Forall (fun piece => ~ In sep (list_ascii_of_string piece)) (Strings.Split s sep).
Proof.
  induction s as [| c s IH]; cbn [Strings.Split].
  - constructor; [intros [] | constructor].
  - destruct (Ascii.eqb c sep) eqn:E.
    + constructor; [intros [] | exact IH].
    + apply Ascii.eqb_neq in E.
      destruct (Strings.Split s sep) as [| piece pieces].
      * constructor; [| constructor]. intros [-> | []]. congruence.
      * inversion IH as [| ? ? Hp Hps]; subst. constructor; [| exact Hps].
        intros [-> | I]; [congruence | exact (Hp I)].
Qed.

(** Splitting two strings set side by side with the separator between
    them. *)
Lemma Split_append (s1 s2 : string) (sep : ascii) :
  Strings.Split (s1 +:+ String sep s2) sep
  = Strings.Split s1 sep ++ Strings.Split s2 sep.
Proof.
  induction s1 as [| c s1 IH].
  - change (Strings.Split (String sep s2) sep = [EmptyString] ++ Strings.Split s2 sep).
    cbn [Strings.Split]. rewrite Ascii.eqb_refl. reflexivity.
  - change (Strings.Split (String c (s1 +:+ String sep s2)) sep
            = Strings.Split (String c s1) sep ++ Strings.Split s2 sep).
    cbn [Strings.Split]. rewrite IH.
    destruct (Ascii.eqb c sep); [reflexivity |].
    destruct (Strings.Split s1 sep) as [| piece pieces] eqn:P;
      [destruct (Split_nonempty s1 sep P) | reflexivity].
Qed.

Lemma accumulate_app (values1 values2 : list string) :
  accumulate (values1 ++ values2) = accumulate values1 ++ accumulate values2.
Proof. rewrite !accumulate_concat, map_app, concat_app. reflexivity. Qed.

Lemma accumulate_nonempty (values : list string) :
  values <> [] -> accumulate values <> [].
Proof.
  intros N. rewrite accumulate_concat. destruct values as [| v values]; [congruence |].
  cbn [map concat]. pose proof (Split_nonempty v ",") as S.
  destruct (Strings.Split v ","); [congruence | discriminate].
Qed.

Lemma Join_accumulate (values : list string) :
  Strings.Join (accumulate values) "," = Strings.Join values ",".
Proof.
  induction values as [| v values IH]; [reflexivity |].
  change (v :: values) with ([v] ++ values). rewrite accumulate_app.
  assert (One : accumulate [v] = Strings.Split v ",").
  { rewrite accumulate_concat. cbn [map concat]. apply app_nil_r. }
  rewrite One. destruct values as [| v' values].
  - cbn [accumulate fold_left app]. rewrite app_nil_r. apply (Join_Split v ",").
  - rewrite Join_app; [| apply Split_nonempty | apply accumulate_nonempty; discriminate].
    rewrite IH, (Join_Split v ","). reflexivity.
Qed.

(** ** The options as they are given *)

(** X1: [String] prints what [Set] was given.  After [flag.Parse] has called
    [Set] with the value of each [-o] flag, [String] returns these values
    joined by commas; a single [Set] on the empty options prints as its
    argument, and a [Set] on options that are not empty prints as the
    options, a comma and the argument.  [Set] never returns an error. *)
Theorem options_print_as_given (values o : list string) (value : string) :
  String_ (accumulate values) = Strings.Join values "," /\
  String_ (fst (Set_ [] value)) = value /\
  snd (Set_ o value) = None /\
  (o <> [] -> String_ (fst (Set_ o value)) = String_ o +:+ "," +:+ value).
Proof.
  unfold String_. split; [apply Join_accumulate |].
  split; [rewrite Set_appends; apply (Join_Split value ",") |].
  split; [reflexivity |].
  intros N. rewrite Set_appends. cbn [fst].
  rewrite (Join_app _ _ _ N (Split_nonempty value ",")).
  rewrite (Join_Split value ","). reflexivity.
Qed.

Lemma options_print_as_given_witness :
  ["ro"] <> [] /\
  String_ (fst (Set_ ["ro"] "uid=3,,loop")) = "ro,uid=3,,loop" /\
  String_ (accumulate ["ro"; ""; "uid=3,loop"]) = "ro,,uid=3,loop".
Proof.
  assert (N : ["ro"] <> []) by discriminate.
  split; [exact N |].
  split.
  - exact (proj2 (proj2 (proj2 (options_print_as_given [] ["ro"] "uid=3,,loop"))) N).
  - exact (proj1 (options_print_as_given ["ro"; ""; "uid=3,loop"] [] "")).
Defined.

Lemma accumulate_cons (v : string) (values : list string) :
  accumulate (v :: values) = Strings.Split v "," ++ accumulate values.
Proof. rewrite !accumulate_concat. reflexivity. Qed.

(** X2: no token of the options holds a comma, and each [-o] flag gives one
    token more than its value has commas: the empty value gives one token,
    the empty string. *)
Theorem option_tokens_counted (values : list string) :
  Forall commaFree (accumulate values) /\
  length (accumulate values) = (length values + list_sum (map commas values))%nat.
Proof.
  induction values as [| v values [IHf IHl]].
  - split; [constructor | reflexivity].
  - rewrite accumulate_cons. split.
    + apply Forall_app. split; [apply (Split_pieces v ",") | exact IHf].
    + rewrite length_app, IHl, Split_length. unfold list_sum.
      cbn [length map fold_right]. unfold commas. lia.
Qed.

(** X3: two [-o] flags in a row do what one [-o] flag does with their
    values joined by a comma: the program runs the same. *)
Theorem options_flags_join {World : Type} `{Env World} (c : Flags)
    (before after : list string) (v1 v2 : string) (w : World) :
  optionValues c = before ++ v1 :: v2 :: after ->
  accumulate (optionValues c)
  = accumulate (before ++ (v1 +:+ "," +:+ v2) :: after) /\
  mountWith c w
  = mountWith (withOptionValues c (before ++ (v1 +:+ "," +:+ v2) :: after)) w.
Proof.
  intros O.
  assert (E : accumulate (optionValues c)
              = accumulate (before ++ (v1 +:+ "," +:+ v2) :: after)).
  { rewrite O, !accumulate_app, !accumulate_cons.
    change (v1 +:+ "," +:+ v2) with (v1 +:+ String "," v2).
    rewrite Split_append, <- app_assoc. reflexivity. }
  split; [exact E |].
  unfold mountWith. cbn [optionValues Args withOptionValues]. rewrite <- E.
  reflexivity.
Qed.

Lemma options_flags_join_witness :
  optionValues (Demo.flagsOf ["-o"; "ro"; "-o"; "loop"; "-o"; "uid=3"; "disk.img"; "/mnt"])
  = ["ro"] ++ "loop" :: "uid=3" :: [] /\
  mountWith (Demo.flagsOf ["-o"; "ro"; "-o"; "loop"; "-o"; "uid=3"; "disk.img"; "/mnt"])
            Demo.bare
  = mountWith (Demo.flagsOf ["-o"; "ro"; "-o"; "loop,uid=3"; "disk.img"; "/mnt"])
              Demo.bare.
Proof.
  split; [reflexivity |].
  exact (proj2 (options_flags_join
    (Demo.flagsOf ["-o"; "ro"; "-o"; "loop"; "-o"; "uid=3"; "disk.img"; "/mnt"])
    ["ro"] [] "loop" "uid=3" Demo.bare eq_refl)).
Defined.

(** ** How a run of the program ends *)

Section Runs.
Context {World : Type} `{Env World}.

(** [listMounts] returns or ends the process with status 0, and calls
    neither package [loop] nor package [mount]. *)
Lemma listMounts_run (n : list string) (w : World) :
  exists o t,
    listMounts n w = (o, w, t) /\ (o = Ret tt \/ o = Exit 0) /\
    List.filter isMountCall t = [] /\ List.filter isLoopCall t = [].
Proof.
  induction n as [| p rest (o & t & E & O & Mn & Ln)].
  - exists (Ret tt), []. repeat split. left. reflexivity.
  - cbn [listMounts]. unfold seq. rewrite ioReadFile_run.
    destruct (ReadFile p w) as [b [e |]].
    + rewrite E. exists o, ([EvReadFile p] ++ t). repeat split; assumption.
    + exists (Exit 0), [EvReadFile p; EvPrint b]. repeat split. right. reflexivity.
Qed.

Lemma hintEvents_no_loop (originFS : string) (w : World) :
  List.filter isLoopCall (hintEvents originFS w) = [].
Proof.
  unfold hintEvents. destruct (ReadFile "/proc/filesystems" w) as [fs [e |]];
    [reflexivity |].
  destruct (existsb _ (lastFields fs)); reflexivity.
Qed.

(** [dispatch] calls a mount primitive first, then nothing of packages
    [loop] and [mount], and returns or ends the process with status 1. *)
Lemma dispatch_shape (c : Flags) (dev path : string) (data : list string) (flags : Z)
    (w : World) :
  exists o w' t,
    dispatch c dev path data flags w = (o, w', mountCall c dev path data flags :: t) /\
    (o = Ret tt \/ o = Exit 1) /\
    List.filter isMountCall t = [] /\ List.filter isLoopCall t = [].
Proof.
  unfold mountCall. destruct (String.eqb (fsType c) "") eqn:T.
  - apply String.eqb_eq in T. rewrite (dispatch_guess _ _ _ _ _ _ T).
    destruct (TryMount dev path (Strings.Join data ",") flags w) as [[e |] w'];
      eexists _, _, _; (split; [reflexivity |]); repeat split; auto.
  - apply String.eqb_neq in T. rewrite (dispatch_explicit _ _ _ _ _ _ T).
    destruct (Mount dev path (fsType c) (Strings.Join data ",") flags w) as [[e |] w'];
      eexists _, _, _; (split; [reflexivity |]); repeat split; auto.
    + cbn [List.filter isMountCall]. apply hintEvents_no_mount.
    + cbn [List.filter isLoopCall]. apply hintEvents_no_loop.
Qed.

Lemma args_cases (a : list string) :
  (length a < 2)%nat \/ exists d p rest, a = d :: p :: rest.
Proof.
  destruct a as [| d [| p rest]]; cbn [length]; [left; lia | left; lia |].
  right. exists d, p, rest. reflexivity.
Qed.

(** What [mountWith] can do: it returns or ends the process with status 1,
    and its events are some without a call of a mount primitive followed by
    some without a call of package [loop] and with one call of a mount
    primitive at most. *)
Lemma mountWith_shape (c : Flags) (w : World) :
  exists o w' pre post,
    mountWith c w = (o, w', pre ++ post) /\
    (o = Ret tt \/ o = Exit 1) /\
    List.filter isMountCall pre = [] /\
    List.filter isLoopCall post = [] /\
    (length (List.filter isMountCall post) <= 1)%nat.
Proof.
  destruct (args_cases (Args c)) as [A | (d & p & rest & A)].
  - rewrite (mountWith_usage _ _ A). exists (Exit 1), w, [EvUsage], [].
    repeat split; auto.
  - rewrite (mountWith_args _ _ _ _ _ A). unfold seq.
    destruct (tokenLoop (accumulate (optionValues c)) d 0 [] w)
      as [[[[[dev flags] data] | code |] w1] t1] eqn:L;
      pose proof (tokenLoop_run _ _ _ _ _ _ _ _ L) as (M1 & R).
    + destruct (dispatch_shape c dev p data (convenienceFlags c flags) w1)
        as (o & w2 & t3 & E & O & M3 & L3).
      rewrite E. exists o, w2, t1, (mountCall c dev p data (convenienceFlags c flags) :: t3).
      split; [reflexivity |]. split; [exact O |]. split; [exact M1 |].
      unfold mountCall.
      destruct (String.eqb (fsType c) ""); cbn [List.filter isLoopCall isMountCall];
        rewrite M3, L3; split; auto.
    + destruct R as [-> _]. exists (Exit 1), w1, t1, []. rewrite app_nil_r.
      repeat split; auto.
    + destruct R.
Qed.

(** The three ways of a run of [main]: a mount table is printed, or
    [flag.Parse] ends the process, or the command line is carried out. *)
Lemma main_cases (argv : list string) (w : World) :
  (exists t, main argv w = (Exit 0, w, t) /\
             List.filter isMountCall t = [] /\ List.filter isLoopCall t = []) \/
  (exists out code t, flagParse argv = ParseExit out code /\
                      main argv w = (Exit code, w, t)) \/
  (exists c o w' pre post,
     flagParse argv = Parsed c /\
     main argv w = (o, w', pre ++ post) /\
     (o = Ret tt \/ o = Exit 1) /\
     List.filter isMountCall pre = [] /\
     List.filter isLoopCall post = [] /\
     (length (List.filter isMountCall post) <= 1)%nat).
Proof.
  unfold main, seq.
  destruct (listMounts_run mountTables w) as (o & t & E & O & Mn & Ln). rewrite E.
  destruct O as [-> | ->]; [| left; exists t; auto].
  right. unfold flagParse_. destruct (flagParse argv) as [out code | c].
  - left. exists out, code, (t ++ out). split; reflexivity.
  - right. destruct (mountWith_shape c w) as (o & w' & pre & post & E' & O & M1 & L2 & C).
    rewrite E'. exists c, o, w', (t ++ pre), post. rewrite <- app_assoc.
    split; [reflexivity |]. split; [reflexivity |]. split; [exact O |].
    split; [rewrite List.filter_app, Mn, M1; reflexivity |]. split; assumption.
Qed.

End Runs.

(** X4: with less than two positional arguments, once no mount table could
    be read, the usage is written and the process ends with status 1:
    nothing is bound to a loop device, whatever the options, nothing is
    mounted and the world is as it was. *)
Theorem too_few_arguments {World : Type} `{Env World} (argv : list string)
    (c : Flags) (w : World) :
  (forall q, In q mountTables -> readable q w = false) ->
  flagParse argv = Parsed c ->
  (length (Args c) < 2)%nat ->
  main argv w = (Exit 1, w, map EvReadFile mountTables ++ [EvUsage]).
Proof.
  intros U P A. rewrite (main_parsed _ _ _ U P), (mountWith_usage _ _ A). reflexivity.
Qed.

Lemma too_few_arguments_witness :
  (length (Args (Demo.flagsOf ["-o"; "loop"; "disk.img"])) < 2)%nat /\
  main ["-o"; "loop"; "disk.img"] Demo.bare
  = (Exit 1, Demo.bare,
     [EvReadFile "/proc/self/mounts"; EvReadFile "/proc/mounts"; EvReadFile "/etc/mtab";
      EvUsage]).
Proof.
  assert (A : (length (Args (Demo.flagsOf ["-o"; "loop"; "disk.img"])) < 2)%nat)
    by (cbn; lia).
  split; [exact A |].
  exact (too_few_arguments ["-o"; "loop"; "disk.img"]
           (Demo.flagsOf ["-o"; "loop"; "disk.img"]) Demo.bare
           bare_no_tables eq_refl A).
Defined.

(** X5: [main] never panics: the two places where it indexes the arguments
    and the one where the prober indexes the fields are reached with the
    index in range.  When [flag.Parse] returns, the process ends with status
    0 or 1. *)
Theorem main_ends_cleanly {World : Type} `{Env World} (argv : list string) (w : World) :
  fst (fst (main argv w)) <> Panic /\
  (forall c, flagParse argv = Parsed c ->
     status (fst (fst (main argv w))) = 0 \/ status (fst (fst (main argv w))) = 1).
Proof.
  destruct (main_cases argv w)
    as [(t & E & _) | [(out & code & t & P & E) | (c & o & w' & pre & post & P & E & O & _)]];
    rewrite E; cbn [fst].
  - split; [discriminate | intros c _; left; reflexivity].
  - split; [discriminate | intros c P'; rewrite P in P'; discriminate P'].
  - split; [destruct O as [-> | ->]; discriminate |].
    intros c' _. destruct O as [-> | ->]; [left | right]; reflexivity.
Qed.

Lemma main_ends_cleanly_witness :
  flagParse ["-t"; "ext9"; "-o"; "loop"; "disk.img"; "/mnt"]
  = Parsed (Demo.flagsOf ["-t"; "ext9"; "-o"; "loop"; "disk.img"; "/mnt"]) /\
  (status (fst (fst (main ["-t"; "ext9"; "-o"; "loop"; "disk.img"; "/mnt"] Demo.bare))) = 0 \/
   status (fst (fst (main ["-t"; "ext9"; "-o"; "loop"; "disk.img"; "/mnt"] Demo.bare))) = 1).
Proof.
  split; [reflexivity |].
  exact (proj2 (main_ends_cleanly ["-t"; "ext9"; "-o"; "loop"; "disk.img"; "/mnt"]
                  Demo.bare)
           (Demo.flagsOf ["-t"; "ext9"; "-o"; "loop"; "disk.img"; "/mnt"]) eq_refl).
Defined.

(** X6: when [flag.Parse] returns, a run of [main] calls a mount primitive
    once at most, and calls nothing of package [loop] after it: its events
    are some without a call of a mount primitive, then some without a call
    of [loop.FindDevice] or [loop.SetFile]. *)
Theorem one_mount_after_the_loops {World : Type} `{Env World} (argv : list string)
    (c : Flags) (w : World) :
  flagParse argv = Parsed c ->
  (length (List.filter isMountCall (snd (main argv w))) <= 1)%nat /\
  exists pre post,
    snd (main argv w) = pre ++ post /\
    List.filter isMountCall pre = [] /\
    List.filter isLoopCall post = [].
Proof.
  intros P.
  destruct (main_cases argv w)
    as [(t & E & Mn & Ln)
       | [(out & code & t & P' & E) | (c' & o & w' & pre & post & _ & E & _ & M1 & L2 & C)]];
    rewrite E; cbn [snd].
  - rewrite Mn. split; [cbn; lia |]. exists t, []. rewrite app_nil_r. auto.
  - rewrite P in P'. discriminate P'.
  - split; [rewrite List.filter_app, length_app, M1; cbn [length]; lia |].
    exists pre, post. auto.
Qed.

Lemma one_mount_after_the_loops_witness :
  (length (List.filter isMountCall
             (snd (main ["-o"; "loop,loop"; "disk.img"; "/mnt"] Demo.bare))) <= 1)%nat.
Proof.
  exact (proj1 (one_mount_after_the_loops ["-o"; "loop,loop"; "disk.img"; "/mnt"]
                  (Demo.flagsOf ["-o"; "loop,loop"; "disk.img"; "/mnt"])
                  Demo.bare eq_refl)).
Defined.

(** ** Failure and success of the mount *)

(** X7: without [-t], when [mount.TryMount] fails the error is logged and
    the process ends with status 1 at once: the listing of the supported
    filesystems is not read and no hint is given. *)
Theorem guessed_type_failure {World : Type} `{Env World} (argv : list string)
    (c : Flags) (d p : string) (rest : list string) (w : World) (dev : string)
    (flags : Z) (data : list string) (w1 : World) (t1 : list event) (e : error)
    (w2 : World) :
  (forall q, In q mountTables -> readable q w = false) ->
  flagParse argv = Parsed c ->
  Args c = d :: p :: rest ->
  fsType c = "" ->
  tokenLoop (accumulate (optionValues c)) d 0 [] w = (Ret (dev, flags, data), w1, t1) ->
  TryMount dev p (Strings.Join data ",") (convenienceFlags c flags) w1 = (Some e, w2) ->
  main argv w
  = (Exit 1, w2,
     map EvReadFile mountTables ++ t1
     ++ [EvTryMount dev p (Strings.Join data ",") (convenienceFlags c flags); EvLog e]).
Proof.
  intros U P A T L F.
  rewrite (main_dispatches _ _ _ _ _ _ _ _ _ _ _ U P A L).
  rewrite (dispatch_guess _ _ _ _ _ _ T), F. reflexivity.
Qed.

Lemma stubborn_no_tables (q : string) :
  In q mountTables -> readable (H := Demo.stubborn) q Demo.bare = false.
Proof. intros [<- | [<- | [<- | []]]]; reflexivity. Qed.

Lemma guessed_type_failure_witness :
  main (H := Demo.stubborn) ["-r"; "/dev/sda1"; "/mnt"] Demo.bare
  = (Exit 1, Demo.bare,
     map EvReadFile mountTables ++ []
     ++ [EvTryMount "/dev/sda1" "/mnt" "" 1; EvLog "no suitable filesystem"]).
Proof.
  exact (guessed_type_failure (H := Demo.stubborn) ["-r"; "/dev/sda1"; "/mnt"]
           (Demo.flagsOf ["-r"; "/dev/sda1"; "/mnt"])
           "/dev/sda1" "/mnt" [] Demo.bare "/dev/sda1" 0 [] Demo.bare []
           "no suitable filesystem" Demo.bare
           stubborn_no_tables eq_refl eq_refl eq_refl eq_refl eq_refl).
Defined.

(** X8: when the mount primitive succeeds, [main] returns, so that the
    process ends with status 0; the call of the primitive is the last event
    and nothing is written. *)
Theorem mount_success {World : Type} `{Env World} (argv : list string)
    (c : Flags) (d p : string) (rest : list string) (w : World) (dev : string)
    (flags : Z) (data : list string) (w1 : World) (t1 : list event) (w2 : World) :
  (forall q, In q mountTables -> readable q w = false) ->
  flagParse argv = Parsed c ->
  Args c = d :: p :: rest ->
  tokenLoop (accumulate (optionValues c)) d 0 [] w = (Ret (dev, flags, data), w1, t1) ->
  mountPrimitive c dev p data (convenienceFlags c flags) w1 = (None, w2) ->
  main argv w
  = (Ret tt, w2,
     map EvReadFile mountTables ++ t1
     ++ [mountCall c dev p data (convenienceFlags c flags)]).
Proof.
  intros U P A L F.
  rewrite (main_dispatches _ _ _ _ _ _ _ _ _ _ _ U P A L).
  unfold mountPrimitive in F. unfold mountCall.
  destruct (String.eqb (fsType c) "") eqn:T.
  - apply String.eqb_eq in T. rewrite (dispatch_guess _ _ _ _ _ _ T), F. reflexivity.
  - apply String.eqb_neq in T. rewrite (dispatch_explicit _ _ _ _ _ _ T), F. reflexivity.
Qed.

Lemma mount_success_witness :
  main ["-t"; "vfat"; "-o"; "loop,ro"; "disk.img"; "/mnt"] Demo.bare
  = (Ret tt,
     {| Demo.files := Demo.files Demo.bare; Demo.freeLoops := ["/dev/loop1"];
        Demo.bound := [("/dev/loop0", "disk.img")];
        Demo.kernelTypes := Demo.kernelTypes Demo.bare |},
     map EvReadFile mountTables ++ [EvFindDevice; EvSetFile "/dev/loop0" "disk.img"]
     ++ [EvMount "/dev/loop0" "/mnt" "vfat" "" 1]).
Proof.
  exact (mount_success ["-t"; "vfat"; "-o"; "loop,ro"; "disk.img"; "/mnt"]
           (Demo.flagsOf ["-t"; "vfat"; "-o"; "loop,ro"; "disk.img"; "/mnt"])
           "disk.img" "/mnt" [] Demo.bare "/dev/loop0" 1 []
           {| Demo.files := Demo.files Demo.bare; Demo.freeLoops := ["/dev/loop1"];
              Demo.bound := [("/dev/loop0", "disk.img")];
              Demo.kernelTypes := Demo.kernelTypes Demo.bare |}
           [EvFindDevice; EvSetFile "/dev/loop0" "disk.img"]
           {| Demo.files := Demo.files Demo.bare; Demo.freeLoops := ["/dev/loop1"];
              Demo.bound := [("/dev/loop0", "disk.img")];
              Demo.kernelTypes := Demo.kernelTypes Demo.bare |}
           bare_no_tables eq_refl eq_refl eq_refl eq_refl).
Defined.

(** The loop over the options stops at a ["loop"] whose [loopSetup] fails. *)
Lemma tokenLoop_loop_fails {World : Type} `{Env World} (l1 l2 : list string)
    (d : string) (f : Z) (da : list string) (w : World) (d1 : string) (f1 : Z)
    (data1 : list string) (w1 : World) (t1 : list event) (x : string) (e : error)
    (w2 : World) (t2 : list event) :
  tokenLoop l1 d f da w = (Ret (d1, f1, data1), w1, t1) ->
  loopSetup d1 w1 = (Ret (x, Some e), w2, t2) ->
  tokenLoop (l1 ++ "loop" :: l2) d f da w
  = (Exit 1, w2, t1 ++ t2 ++ [EvLog ("Error setting loop device:" +:+ e)]).
Proof.
  intros L S. rewrite tokenLoop_app. unfold seq at 1. rewrite L.
  cbn [fst snd tokenLoop String.eqb Ascii.eqb Bool.eqb]. unfold seq. rewrite S.
  rewrite logFatal_run. reflexivity.
Qed.

(** X9: a failure of [loopSetup] is fatal.  At the first ["loop"] whose
    [loopSetup] returns an error, the error is logged after the words
    [Error setting loop device:] and the process ends with status 1; the
    options after it are not looked at and no mount primitive is called. *)
Theorem loop_failure_is_fatal {World : Type} `{Env World} (argv : list string)
    (c : Flags) (d p : string) (rest l1 l2 : list string) (w : World) (d1 : string)
    (f1 : Z) (data1 : list string) (w1 : World) (t1 : list event) (x : string)
    (e : error) (w2 : World) (t2 : list event) :
  (forall q, In q mountTables -> readable q w = false) ->
  flagParse argv = Parsed c ->
  Args c = d :: p :: rest ->
  accumulate (optionValues c) = l1 ++ "loop" :: l2 ->
  tokenLoop l1 d 0 [] w = (Ret (d1, f1, data1), w1, t1) ->
  loopSetup d1 w1 = (Ret (x, Some e), w2, t2) ->
  main argv w
  = (Exit 1, w2,
     map EvReadFile mountTables ++ t1 ++ t2
     ++ [EvLog ("Error setting loop device:" +:+ e)]) /\
  existsb isMountCall (snd (main argv w)) = false.
Proof.
  intros U P A O L S.
  pose proof (tokenLoop_loop_fails l1 l2 _ _ _ _ _ _ _ _ _ _ _ _ _ L S) as F.
  rewrite <- O in F.
  pose proof (tokenLoop_run _ _ _ _ _ _ _ _ F) as (M & _).
  rewrite (main_loop_stops _ _ _ _ _ _ _ _ _ U P A F).
  split; [reflexivity |]. cbn [snd].
  rewrite existsb_app, (no_mount_existsb _ (reads_no_mount _)), (no_mount_existsb _ M).
  reflexivity.
Qed.

Lemma crowded_no_tables (q : string) :
  In q mountTables -> readable q Demo.crowded = false.
Proof. intros [<- | [<- | [<- | []]]]; reflexivity. Qed.

Lemma loop_failure_is_fatal_witness :
  main ["-o"; "ro,loop,noexec,loop"; "disk.img"; "/mnt"] Demo.crowded
  = (Exit 1, Demo.crowded,
     map EvReadFile mountTables ++ [] ++ [EvFindDevice]
     ++ [EvLog "Error setting loop device:no free loop device"]).
Proof.
  exact (proj1 (loop_failure_is_fatal
    ["-o"; "ro,loop,noexec,loop"; "disk.img"; "/mnt"]
    (Demo.flagsOf ["-o"; "ro,loop,noexec,loop"; "disk.img"; "/mnt"])
    "disk.img" "/mnt" [] ["ro"] ["noexec"; "loop"] Demo.crowded
    "disk.img" 1 [] Demo.crowded [] "" "no free loop device" Demo.crowded [EvFindDevice]
    crowded_no_tables eq_refl eq_refl eq_refl eq_refl eq_refl)).
Defined.

(** ** The token ["loop"] *)

Section Reserved.
Context {World : Type} `{Env World}.

Lemma tokenFlags_notLoop (options : list string) :
  tokenFlags options = tableFlags (List.filter notLoop options).
Proof.
  unfold tokenFlags, tableFlags.
  induction options as [| option rest IH]; [reflexivity |].
  cbn [omap list_omap List.filter]. unfold entry at 1, notLoop at 1.
  destruct (String.eqb option "loop"); cbn [negb]; [exact IH |].
  cbn [omap list_omap]. destruct (opts !! option); cbn [fold_right]; rewrite IH;
    reflexivity.
Qed.

Lemma unknownTokens_notLoop (options : list string) :
  unknownTokens options
  = List.filter (fun token => match opts !! token with
                              | Some _ => false
                              | None => true
                              end) (List.filter notLoop options).
Proof.
  unfold unknownTokens.
  induction options as [| option rest IH]; [reflexivity |].
  cbn [List.filter]. unfold unknown at 1, notLoop at 1.
  destruct (String.eqb option "loop"); cbn [negb andb]; [exact IH |].
  cbn [List.filter]. destruct (opts !! option); rewrite IH; reflexivity.
Qed.

Lemma unknownTokens_no_loop (options : list string) :
  ~ In "loop" (unknownTokens options).
Proof.
  unfold unknownTokens. intros I. apply List.filter_In in I. destruct I as [_ U].
  discriminate U.
Qed.

(** The bits of the entry of a token given are in the flags of the loop. *)
Lemma tokenFlags_includes (options : list string) (token : string) (f : Z) :
  In token options -> entry token = Some f ->
  Z.land (tokenFlags options) f = f.
Proof.
  unfold tokenFlags. intros I E.
  induction options as [| option rest IH]; [destruct I |].
  cbn [omap list_omap]. destruct I as [-> | I].
  - rewrite E. cbn [fold_right]. rewrite Z.lor_comm. apply includes_here.
  - destruct (entry option); [| exact (IH I)].
    cbn [fold_right]. apply includes_right, IH, I.
Qed.

Lemma tokenFlags_all_unknown (options : list string) :
  Forall (fun token => unknown token = true) options ->
  tokenFlags options = 0 /\ unknownTokens options = options /\ ~ In "loop" options.
Proof.
  unfold tokenFlags, unknownTokens.
  induction 1 as [| option rest U _ (IHf & IHu & IHn)].
  - repeat split. intros [].
  - cbn [omap list_omap List.filter]. rewrite U. unfold entry at 1.
    unfold unknown in U. apply andb_prop in U. destruct U as [L O].
    apply negb_true_iff in L. rewrite L.
    destruct (opts !! option); [discriminate O |].
    split; [exact IHf |]. split; [rewrite IHu; reflexivity |].
    intros [E | I]; [| exact (IHn I)].
    subst option. discriminate L.
Qed.

End Reserved.

(** X10: ["loop"] is taken before the table is looked at.  Even when [opts]
    has an entry for ["loop"], the flags the loop over the options returns
    are those of the other tokens, and ["loop"] is not added to the data. *)
Theorem loop_token_is_reserved {World : Type} `{Env World} (options : list string)
    (dev : string) (flags : Z) (data : list string) (w : World) (dev' : string)
    (flags' : Z) (data' : list string) (w' : World) (t : list event) :
  tokenLoop options dev flags data w = (Ret (dev', flags', data'), w', t) ->
  flags' = Z.lor flags (tableFlags (List.filter notLoop options)) /\
  data' = data ++ List.filter (fun token => match opts !! token with
                                             | Some _ => false
                                             | None => true
                                             end) (List.filter notLoop options) /\
  (~ In "loop" data -> ~ In "loop" data').
Proof.
  intros L. pose proof (tokenLoop_run _ _ _ _ _ _ _ _ L) as (_ & F & D & _).
  split; [rewrite F, tokenFlags_notLoop; reflexivity |].
  split; [rewrite D, unknownTokens_notLoop; reflexivity |].
  intros N I. rewrite D in I. apply in_app_or in I.
  destruct I as [I | I]; [exact (N I) | exact (unknownTokens_no_loop _ I)].
Qed.

Lemma loop_token_is_reserved_witness :
  opts (Env := Demo.shadowed) !! "loop" = Some 0x8000 /\
  tokenLoop (H := Demo.shadowed) ["ro"; "loop"; "uid=3"] "disk.img" 0 [] Demo.bare
  = (Ret ("/dev/loop0", 1, ["uid=3"]),
     {| Demo.files := Demo.files Demo.bare; Demo.freeLoops := ["/dev/loop1"];
        Demo.bound := [("/dev/loop0", "disk.img")];
        Demo.kernelTypes := Demo.kernelTypes Demo.bare |},
     [EvFindDevice; EvSetFile "/dev/loop0" "disk.img"]) /\
  1 = Z.lor 0 (tableFlags (H := Demo.shadowed) (List.filter notLoop ["ro"; "loop"; "uid=3"])).
Proof.
  split; [reflexivity |]. split; [reflexivity |].
  exact (proj1 (loop_token_is_reserved (H := Demo.shadowed)
    ["ro"; "loop"; "uid=3"] "disk.img" 0 [] Demo.bare "/dev/loop0" 1 ["uid=3"]
    {| Demo.files := Demo.files Demo.bare; Demo.freeLoops := ["/dev/loop1"];
       Demo.bound := [("/dev/loop0", "disk.img")];
       Demo.kernelTypes := Demo.kernelTypes Demo.bare |}
    [EvFindDevice; EvSetFile "/dev/loop0" "disk.img"] eq_refl)).
Defined.

(** ** Bits set and bits kept *)

(** X11: no bit is ever cleared.  The flags given to the mount primitive
    hold every bit of the flags the loop over the options returned, and
    these hold every bit of the entry of each option given that is a key of
    [opts] and not ["loop"], whatever comes after it on the command line. *)
Theorem known_option_bits_reach_mount {World : Type} `{Env World} (c : Flags)
    (options : list string) (dev : string) (w : World) (dev' : string) (flags' : Z)
    (data' : list string) (w' : World) (t : list event) (token : string) (f : Z) :
  tokenLoop options dev 0 [] w = (Ret (dev', flags', data'), w', t) ->
  In token options ->
  token <> "loop" ->
  opts !! token = Some f ->
  Z.land flags' f = f /\
  Z.land (convenienceFlags c flags') flags' = flags' /\
  Z.land (convenienceFlags c flags') f = f.
Proof.
  intros L I N O. pose proof (tokenLoop_run _ _ _ _ _ _ _ _ L) as (_ & F & _ & _).
  rewrite Z.lor_0_l in F.
  assert (E : entry token = Some f).
  { unfold entry. apply String.eqb_neq in N. rewrite N. exact O. }
  assert (If : Z.land flags' f = f).
  { rewrite F. exact (tokenFlags_includes _ _ _ I E). }
  split; [exact If |]. rewrite convenienceFlags_closed.
  split; [rewrite Z.lor_comm; apply includes_here | apply includes_left, If].
Qed.

Lemma known_option_bits_reach_mount_witness :
  Z.land (convenienceFlags (Demo.flagsOf ["-rbind"; "/srv"; "/mnt"]) 9) 8 = 8.
Proof.
  exact (proj2 (proj2 (known_option_bits_reach_mount
    (Demo.flagsOf ["-rbind"; "/srv"; "/mnt"])
    ["noexec"; "uid=3"; "ro"] "/srv" Demo.bare "/srv" 9 ["uid=3"] Demo.bare []
    "noexec" 8 eq_refl (or_introl eq_refl) ltac:(discriminate) eq_refl))).
Defined.

(** The bits of the seven conditions of lines 148 to 168, whatever they
    are, lie in [convenienceMask]. *)
Lemma conditions_in_mask (b1 b2 b3 b4 b5 b6 b7 : bool) :
  Z.land
    (Z.lor (Z.lor (if b1 then MS_RDONLY else 0)
           (Z.lor (if b2 then MS_BIND else 0)
           (Z.lor (if b3 then MS_SHARED else 0)
           (Z.lor (if b4 then MS_SLAVE else 0)
           (Z.lor (if b5 then MS_PRIVATE else 0)
                  (if b6 then MS_UNBINDABLE else 0))))))
           (if b7 then Z.lor MS_BIND MS_REC else 0))
    convenienceMask
  = Z.lor (Z.lor (if b1 then MS_RDONLY else 0)
          (Z.lor (if b2 then MS_BIND else 0)
          (Z.lor (if b3 then MS_SHARED else 0)
          (Z.lor (if b4 then MS_SLAVE else 0)
          (Z.lor (if b5 then MS_PRIVATE else 0)
                 (if b6 then MS_UNBINDABLE else 0))))))
          (if b7 then Z.lor MS_BIND MS_REC else 0).
Proof. destruct b1, b2, b3, b4, b5, b6, b7; reflexivity. Qed.

(** X12: the flags of the command line set bits of [MS_RDONLY], [MS_BIND],
    [MS_REC], [MS_SHARED], [MS_SLAVE], [MS_PRIVATE] and [MS_UNBINDABLE]
    only: every other bit of the flags is left as the loop over the options
    returned it. *)
Theorem convenience_flags_within_mask (c : Flags) (flags : Z) (i : Z) :
  Z.testbit convenienceMask i = false ->
  Z.testbit (convenienceFlags c flags) i = Z.testbit flags i.
Proof.
  intros Mi. rewrite convenienceFlags_closed, Z.lor_spec.
  pose proof (conditions_in_mask (ro c) (bind c || rbind c)
                (makeShared c || makeRShared c) (makeSlave c || makeRSlave c)
                (makePrivate c || makeRPrivate c)
                (makeUnbindable c || makeRUnbindable c) (anyRecursive c)) as E.
  fold (ownBits c) in E.
  apply (f_equal (fun z => Z.testbit z i)) in E. rewrite Z.land_spec, Mi in E.
  rewrite <- E, andb_false_r, orb_false_r. reflexivity.
Qed.

Lemma convenience_flags_within_mask_witness :
  Z.testbit convenienceMask 3 = false /\
  Z.testbit (convenienceFlags (Demo.flagsOf ["-r"; "-rbind"; "/srv"; "/mnt"]) 8) 3
  = Z.testbit 8 3.
Proof.
  split; [reflexivity |].
  exact (convenience_flags_within_mask
           (Demo.flagsOf ["-r"; "-rbind"; "/srv"; "/mnt"]) 8 3 eq_refl).
Defined.

Lemma plain_bits (b1 b2 b3 b4 b5 b6 : bool) :
  Z.testbit
    (Z.lor (if b1 then MS_RDONLY else 0)
    (Z.lor (if b2 then MS_BIND else 0)
    (Z.lor (if b3 then MS_SHARED else 0)
    (Z.lor (if b4 then MS_SLAVE else 0)
    (Z.lor (if b5 then MS_PRIVATE else 0)
           (if b6 then MS_UNBINDABLE else 0)))))) (Z.log2 MS_REC) = false /\
  (b2 = false ->
   Z.testbit
     (Z.lor (if b1 then MS_RDONLY else 0)
     (Z.lor (if b2 then MS_BIND else 0)
     (Z.lor (if b3 then MS_SHARED else 0)
     (Z.lor (if b4 then MS_SLAVE else 0)
     (Z.lor (if b5 then MS_PRIVATE else 0)
            (if b6 then MS_UNBINDABLE else 0)))))) (Z.log2 MS_BIND) = false).
Proof.
  split; [destruct b1, b2, b3, b4, b5, b6; reflexivity |].
  intros ->. destruct b1, b3, b4, b5, b6; reflexivity.
Qed.

(** X13: without a recursive flag nothing recurses.  When none of [-rbind],
    [-make-rshared], [-make-rslave], [-make-rprivate], [-make-runbindable] is
    given, the flags of the command line add the bits each of them asks for
    and leave the bit of [MS_REC] as it was; when [-bind] is not given
    either, they leave the bit of [MS_BIND] as it was: [-r] and the plain
    propagation flags do not make a bind mount. *)
Theorem plain_flags_do_not_recurse (c : Flags) (flags : Z) :
  anyRecursive c = false ->
  convenienceFlags c flags = Z.lor flags (ownBits c) /\
  Z.testbit (convenienceFlags c flags) (Z.log2 MS_REC)
  = Z.testbit flags (Z.log2 MS_REC) /\
  (bind c = false ->
   Z.testbit (convenienceFlags c flags) (Z.log2 MS_BIND)
   = Z.testbit flags (Z.log2 MS_BIND)).
Proof.
  intros R.
  assert (E : convenienceFlags c flags = Z.lor flags (ownBits c)).
  { rewrite convenienceFlags_closed, R, Z.lor_0_r. reflexivity. }
  rewrite E, !Z.lor_spec.
  pose proof (plain_bits (ro c) (bind c || rbind c) (makeShared c || makeRShared c)
                (makeSlave c || makeRSlave c) (makePrivate c || makeRPrivate c)
                (makeUnbindable c || makeRUnbindable c)) as [Prec Pbind].
  fold (ownBits c) in Prec, Pbind.
  split; [reflexivity |]. split; [rewrite Prec, orb_false_r; reflexivity |].
  intros B. rewrite Pbind, orb_false_r; [reflexivity |].
  unfold anyRecursive in R. rewrite B.
  destruct (rbind c); [discriminate R | reflexivity].
Qed.

Lemma plain_flags_do_not_recurse_witness :
  anyRecursive (Demo.flagsOf ["-r"; "/dev/sda1"; "/mnt"]) = false /\
  convenienceFlags (Demo.flagsOf ["-r"; "/dev/sda1"; "/mnt"]) 8 = Z.lor 8 MS_RDONLY /\
  Z.testbit (convenienceFlags (Demo.flagsOf ["-r"; "/dev/sda1"; "/mnt"]) 8)
            (Z.log2 MS_BIND)
  = Z.testbit 8 (Z.log2 MS_BIND).
Proof.
  split; [reflexivity |].
  split.
  - exact (proj1 (plain_flags_do_not_recurse
                    (Demo.flagsOf ["-r"; "/dev/sda1"; "/mnt"]) 8 eq_refl)).
  - exact (proj2 (proj2 (plain_flags_do_not_recurse
                           (Demo.flagsOf ["-r"; "/dev/sda1"; "/mnt"]) 8 eq_refl))
             eq_refl).
Defined.

(** ** Options the program does not know *)

(** X14: options that are all unknown go through as they were given.  When
    no token of the options is ["loop"] or a key of [opts], nothing is bound
    to a loop device, and the mount primitive is called with the first
    argument as device, with the values of the [-o] flags joined by commas
    as data, and with the flags of the command line alone. *)
Theorem unknown_options_pass_through {World : Type} `{Env World} (argv : list string)
    (c : Flags) (d p : string) (rest : list string) (w : World) :
  (forall q, In q mountTables -> readable q w = false) ->
  flagParse argv = Parsed c ->
  Args c = d :: p :: rest ->
  Forall (fun token => unknown token = true) (accumulate (optionValues c)) ->
  exists o w2 t2,
    main argv w
    = (o, w2,
       map EvReadFile mountTables
       ++ (if String.eqb (fsType c) ""
           then EvTryMount d p (Strings.Join (optionValues c) ",") (convenienceFlags c 0)
           else EvMount d p (fsType c) (Strings.Join (optionValues c) ",")
                  (convenienceFlags c 0)) :: t2) /\
    existsb isLoopCall t2 = false.
Proof.
  intros U P A K.
  destruct (tokenFlags_all_unknown _ K) as (F & D & N).
  pose proof (tokenLoop_pure _ N d 0 [] w) as L.
  rewrite F, D in L. cbn [app] in L. rewrite Z.lor_0_l in L.
  rewrite (main_dispatches _ _ _ _ _ _ _ _ _ _ _ U P A L).
  destruct (dispatch_shape c d p (accumulate (optionValues c)) (convenienceFlags c 0) w)
    as (o & w2 & t2 & E & _ & _ & L2).
  rewrite E. exists o, w2, t2. unfold mountCall. rewrite Join_accumulate.
  split; [reflexivity |].
  clear - L2. induction t2 as [| e t2 IH]; [reflexivity |].
  cbn [List.filter existsb] in L2 |- *.
  destruct (isLoopCall e); [discriminate L2 | exact (IH L2)].
Qed.

Lemma unknown_options_pass_through_witness :
  exists o w2 t2,
    main ["-t"; "ext4"; "-o"; "uid=3,gid=4"; "-o"; "umask=022"; "/dev/sda1"; "/mnt"]
         Demo.bare
    = (o, w2,
       map EvReadFile mountTables
       ++ EvMount "/dev/sda1" "/mnt" "ext4" "uid=3,gid=4,umask=022" 0 :: t2) /\
    existsb isLoopCall t2 = false.
Proof.
  exact (unknown_options_pass_through
    ["-t"; "ext4"; "-o"; "uid=3,gid=4"; "-o"; "umask=022"; "/dev/sda1"; "/mnt"]
    (Demo.flagsOf
       ["-t"; "ext4"; "-o"; "uid=3,gid=4"; "-o"; "umask=022"; "/dev/sda1"; "/mnt"])
    "/dev/sda1" "/mnt" [] Demo.bare bare_no_tables eq_refl eq_refl
    ltac:(repeat constructor)).
Defined.

(** ** The names the prober returns *)

Lemma spaceWidth_ascii (c : ascii) (s : string) :
  Strings.spaceWidth (Strings.bytes (String c s)) = 0%nat -> asciiSpace c = false.
Proof.
  unfold Strings.bytes, asciiSpace. cbn [list_ascii_of_string map Strings.spaceWidth].
  destruct ((9 <=? N_of_ascii c) && (N_of_ascii c <=? 13) || (N_of_ascii c =? 32))%N;
    [discriminate | reflexivity].
Qed.

Lemma In_append (x : ascii) (a b : string) :
  In x (list_ascii_of_string (a +:+ b)) ->
  In x (list_ascii_of_string a) \/ In x (list_ascii_of_string b).
Proof.
  induction a as [| y a IH]; [right; assumption |].
  change (In x (y :: list_ascii_of_string (a +:+ b)) ->
          In x (y :: list_ascii_of_string a) \/ In x (list_ascii_of_string b)).
  intros [E | I]; [left; left; exact E |].
  destruct (IH I) as [I' | I']; [left; right; exact I' | right; exact I'].
Qed.

(** No field holds a white space character of ASCII. *)
Lemma fieldsFrom_no_space (s : string) :
  forall skip cur,
    (forall ch, In ch (list_ascii_of_string cur) -> asciiSpace ch = false) ->
    Forall (fun x => forall ch, In ch (list_ascii_of_string x) -> asciiSpace ch = false)
           (Strings.fieldsFrom skip cur s).
Proof.
  induction s as [| c s IH]; intros skip cur C; cbn [Strings.fieldsFrom].
  - destruct cur; constructor; [exact C | constructor].
  - destruct skip as [| k]; [| apply IH, C].
    destruct (Strings.spaceWidth (Strings.bytes (String c s))) eqn:W.
    + apply IH. intros ch I. apply In_append in I. destruct I as [I | [<- | []]].
      * exact (C ch I).
      * exact (spaceWidth_ascii _ _ W).
    + apply Forall_app. split.
      * destruct cur; constructor; [exact C | constructor].
      * apply IH. intros ch [].
Qed.

(** X15: the names [getSupportedFilesystem] returns are not empty and hold
    no white space of ASCII, no newline in particular, whatever the listing
    holds and whether it could be read or not. *)
Theorem prober_names_are_words {World : Type} `{Env World} (originFS : string)
    (w w' : World) (l : list string) (known : bool) (err : option error)
    (t : list event) (x : string) :
  getSupportedFilesystem originFS w = (Ret (l, known, err), w', t) ->
  In x l ->
  x <> "" /\ forall ch, In ch (list_ascii_of_string x) -> asciiSpace ch = false.
Proof.
  intros G I.
  destruct (ReadFile "/proc/filesystems" w) as [fs [e |]] eqn:R.
  - rewrite (getSupportedFilesystem_unread _ _ _ _ R) in G.
    injection G as <- _ _ _ _. destruct I.
  - rewrite (getSupportedFilesystem_read _ _ _ R) in G.
    injection G as <- _ _ _ _.
    unfold lastFields in I. apply list_elem_of_In, list_elem_of_omap in I.
    destruct I as (line & _ & L). unfold lastField in L.
    apply last_Some_elem_of, list_elem_of_In in L.
    split.
    + pose proof (Fields_nonempty line) as NE. rewrite List.Forall_forall in NE.
      exact (NE x L).
    + assert (NS : Forall (fun x => forall ch, In ch (list_ascii_of_string x) ->
                                       asciiSpace ch = false) (Strings.Fields line)).
      { apply fieldsFrom_no_space. intros ch []. }
      rewrite List.Forall_forall in NS. exact (NS x L).
Qed.

Lemma prober_names_are_words_witness :
  "ext4" <> "" /\ forall ch, In ch (list_ascii_of_string "ext4") -> asciiSpace ch = false.
Proof.
  exact (prober_names_are_words "vfat" Demo.bare Demo.bare
           ["sysfs"; "proc"; "ext4"; "vfat"] true None [EvReadFile "/proc/filesystems"]
           "ext4" eq_refl (or_intror (or_intror (or_introl eq_refl)))).
Defined.

(** ** What a success means *)

(** X16: the process does not claim a mount it did not make.  When no mount
    table could be read and [flag.Parse] returned, [main] returns (status 0)
    only if there were two arguments at least, every [loopSetup] succeeded
    and the mount primitive returned no error. *)
Theorem success_means_mounted {World : Type} `{Env World} (argv : list string)
    (c : Flags) (w : World) :
  (forall q, In q mountTables -> readable q w = false) ->
  flagParse argv = Parsed c ->
  fst (fst (main argv w)) = Ret tt ->
  exists d p rest dev flags data w1 t1,
    Args c = d :: p :: rest /\
    tokenLoop (accumulate (optionValues c)) d 0 [] w = (Ret (dev, flags, data), w1, t1) /\
    fst (mountPrimitive c dev p data (convenienceFlags c flags) w1) = None /\
    snd (main argv w)
    = map EvReadFile mountTables ++ t1
      ++ [mountCall c dev p data (convenienceFlags c flags)].
Proof.
  intros U P S.
  destruct (args_cases (Args c)) as [A | (d & p & rest & A)].
  - rewrite (main_parsed _ _ _ U P), (mountWith_usage _ _ A) in S. discriminate S.
  - destruct (tokenLoop (accumulate (optionValues c)) d 0 [] w)
      as [[[[[dev flags] data] | code |] w1] t1] eqn:L.
    + exists d, p, rest, dev, flags, data, w1, t1.
      split; [exact A |]. split; [exact L |].
      rewrite (main_dispatches _ _ _ _ _ _ _ _ _ _ _ U P A L) in S |- *.
      unfold mountPrimitive, mountCall.
      destruct (String.eqb (fsType c) "") eqn:T.
      * apply String.eqb_eq in T. rewrite (dispatch_guess _ _ _ _ _ _ T) in S |- *.
        destruct (TryMount dev p (Strings.Join data ",") (convenienceFlags c flags) w1)
          as [[e |] w2]; [discriminate S | split; reflexivity].
      * apply String.eqb_neq in T. rewrite (dispatch_explicit _ _ _ _ _ _ T) in S |- *.
        destruct (Mount dev p (fsType c) (Strings.Join data ",")
                    (convenienceFlags c flags) w1)
          as [[e |] w2]; [discriminate S | split; reflexivity].
    + rewrite (main_loop_stops _ _ _ _ _ _ _ _ _ U P A L) in S. discriminate S.
    + destruct (tokenLoop_run _ _ _ _ _ _ _ _ L) as (_ & []).
Qed.

Lemma success_means_mounted_witness :
  fst (fst (main ["-o"; "loop"; "disk.img"; "/mnt"] Demo.bare)) = Ret tt /\
  exists d p rest dev flags data w1 t1,
    Args (Demo.flagsOf ["-o"; "loop"; "disk.img"; "/mnt"]) = d :: p :: rest /\
    tokenLoop (accumulate (optionValues (Demo.flagsOf ["-o"; "loop"; "disk.img"; "/mnt"])))
              d 0 [] Demo.bare
    = (Ret (dev, flags, data), w1, t1) /\
    fst (mountPrimitive (Demo.flagsOf ["-o"; "loop"; "disk.img"; "/mnt"]) dev p data
           (convenienceFlags (Demo.flagsOf ["-o"; "loop"; "disk.img"; "/mnt"]) flags) w1)
    = None /\
    snd (main ["-o"; "loop"; "disk.img"; "/mnt"] Demo.bare)
    = map EvReadFile mountTables ++ t1
      ++ [mountCall (Demo.flagsOf ["-o"; "loop"; "disk.img"; "/mnt"]) dev p data
            (convenienceFlags (Demo.flagsOf ["-o"; "loop"; "disk.img"; "/mnt"]) flags)].
Proof.
  split; [reflexivity |].
  exact (success_means_mounted ["-o"; "loop"; "disk.img"; "/mnt"]
           (Demo.flagsOf ["-o"; "loop"; "disk.img"; "/mnt"]) Demo.bare
           bare_no_tables eq_refl eq_refl).
Defined.
